(** * A 32-bit register machine: shallow embedding of [cpu.c]

    The machine of [cpu.c] is embedded as pure functions over a record that
    mirrors [struct cpu].  Conventions:

    - an [int32_t] is a [Z] kept in the signed 32-bit range; the result of
      every C addition, subtraction and multiplication is passed through
      [wrap32] (two's complement); the division of [INT32_MIN] by -1 traps
      and has no result;
    - the three pointers of [struct cpu] are cell indices relative to
      [cpu->memory]; [stack_bottom] is an [option] because [cpu_reset]
      stores [NULL] in it;
    - an access outside the memory buffer, outside [registers[0..3]], or
      through a [NULL] pointer has no defined behaviour in C: the embedded
      function returns [None] there;
    - the process's standard streams are two extra fields of the record;
      [scanf("%d")] belongs to the C library and is a parameter. *)

From Stdlib Require Import ZArith Lia List Bool.
From Stdlib.Strings Require Import Byte.
From stdpp Require Import base option list.
Import ListNotations.
Local Open Scope Z_scope.

(** ** Machine integers *)

Definition wrap32 (z : Z) : Z := (z + 2 ^ 31) mod 2 ^ 32 - 2 ^ 31.
Definition to_long_long (z : Z) : Z := (z + 2 ^ 63) mod 2 ^ 64 - 2 ^ 63.
Definition to_size_t (z : Z) : Z := z mod 2 ^ 64.

Definition INT32_MIN : Z := - 2 ^ 31.
Definition INT32_MAX : Z := 2 ^ 31 - 1.
Definition is_int32 (z : Z) : Prop := INT32_MIN <= z <= INT32_MAX.

(** The macros of [cpu.c]. *)
Definition BLOCK_SIZE : Z := 4096.
Definition CELL_SIZE : Z := 4.

(** ** [cpu.h] *)

Inductive cpu_status : Set :=
| CPU_OK
| CPU_HALTED
| CPU_ILLEGAL_INSTRUCTION
| CPU_ILLEGAL_OPERAND
| CPU_INVALID_ADDRESS
| CPU_INVALID_STACK_OPERATION
| CPU_DIV_BY_ZERO
| CPU_IO_ERROR.

#[global] Instance cpu_status_eq_dec : EqDecision cpu_status.
Proof. solve_decision. Defined.

Definition REGISTER_A : Z := 0.
Definition REGISTER_B : Z := 1.
Definition REGISTER_C : Z := 2.
Definition REGISTER_D : Z := 3.

(** ** [struct cpu] *)

(** [int32_t registers[4]]: a fixed array of four cells. *)
Record regfile : Set := mkRegs { reg_a : Z; reg_b : Z; reg_c : Z; reg_d : Z }.

(** [registers[reg]] as an rvalue; indices outside the array are undefined. *)
Definition rf_get (rf : regfile) (reg : Z) : option Z :=
  match reg with
  | 0 => Some (reg_a rf)
  | 1 => Some (reg_b rf)
  | 2 => Some (reg_c rf)
  | 3 => Some (reg_d rf)
  | _ => None
  end.

(** [registers[reg] = v]. *)
Definition rf_set (rf : regfile) (reg : Z) (v : Z) : option regfile :=
  match reg with
  | 0 => Some (mkRegs v (reg_b rf) (reg_c rf) (reg_d rf))
  | 1 => Some (mkRegs (reg_a rf) v (reg_c rf) (reg_d rf))
  | 2 => Some (mkRegs (reg_a rf) (reg_b rf) v (reg_d rf))
  | 3 => Some (mkRegs (reg_a rf) (reg_b rf) (reg_c rf) v)
  | _ => None
  end.

(** What the machine has written to standard output. *)
Inductive out_event : Set :=
| OutInt (v : Z)      (* printf("%" PRId32, v) *)
| OutChar (c : Z).    (* putchar(c) *)

Record cpu : Type := mkCpu {
  registers : regfile;
  status : cpu_status;
  stack_size : Z;
  instruction_index : Z;
  memory : list Z;
  stack_bottom : option Z;
  stack_top : Z;
  stdin : list byte;
  stdout : list out_event
}.

Definition set_registers (s : cpu) (rf : regfile) : cpu :=
  mkCpu rf (status s) (stack_size s) (instruction_index s) (memory s)
        (stack_bottom s) (stack_top s) (stdin s) (stdout s).
Definition set_status (s : cpu) (st : cpu_status) : cpu :=
  mkCpu (registers s) st (stack_size s) (instruction_index s) (memory s)
        (stack_bottom s) (stack_top s) (stdin s) (stdout s).
Definition set_stack_size (s : cpu) (n : Z) : cpu :=
  mkCpu (registers s) (status s) n (instruction_index s) (memory s)
        (stack_bottom s) (stack_top s) (stdin s) (stdout s).
Definition set_instruction_index (s : cpu) (i : Z) : cpu :=
  mkCpu (registers s) (status s) (stack_size s) i (memory s)
        (stack_bottom s) (stack_top s) (stdin s) (stdout s).
Definition set_memory (s : cpu) (m : list Z) : cpu :=
  mkCpu (registers s) (status s) (stack_size s) (instruction_index s) m
        (stack_bottom s) (stack_top s) (stdin s) (stdout s).
Definition set_stack_bottom (s : cpu) (p : option Z) : cpu :=
  mkCpu (registers s) (status s) (stack_size s) (instruction_index s) (memory s)
        p (stack_top s) (stdin s) (stdout s).
Definition set_stack_top (s : cpu) (p : Z) : cpu :=
  mkCpu (registers s) (status s) (stack_size s) (instruction_index s) (memory s)
        (stack_bottom s) p (stdin s) (stdout s).
Definition set_stdin (s : cpu) (i : list byte) : cpu :=
  mkCpu (registers s) (status s) (stack_size s) (instruction_index s) (memory s)
        (stack_bottom s) (stack_top s) i (stdout s).
Definition set_stdout (s : cpu) (o : list out_event) : cpu :=
  mkCpu (registers s) (status s) (stack_size s) (instruction_index s) (memory s)
        (stack_bottom s) (stack_top s) (stdin s) o.

(** ** Memory and register access *)

(** [memory[i]] as an rvalue. *)
Definition mem_read (m : list Z) (i : Z) : option Z :=
  if bool_decide (0 <= i) then m !! Z.to_nat i else None.

(** [memory[i] = v]. *)
Definition mem_write (m : list Z) (i : Z) (v : Z) : option (list Z) :=
  if bool_decide (0 <= i < Z.of_nat (length m))
  then Some (<[Z.to_nat i := v]> m)
  else None.

Definition reg_read (s : cpu) (reg : Z) : option Z := rf_get (registers s) reg.

Definition reg_write (s : cpu) (reg : Z) (v : Z) : option cpu :=
  rf ← rf_set (registers s) reg v; Some (set_registers s rf).

Definition store_cell (s : cpu) (i : Z) (v : Z) : option cpu :=
  m ← mem_write (memory s) i v; Some (set_memory s m).

(** [cpu->instruction_index++] as a statement. *)
Definition advance (s : cpu) : cpu :=
  set_instruction_index s (wrap32 (instruction_index s + 1)).

(** [cpu->memory[++cpu->instruction_index]]: the operand and the state with
    the incremented index. *)
Definition next_cell (s : cpu) : option (Z * cpu) :=
  let s1 := advance s in
  v ← mem_read (memory s1) (instruction_index s1); Some (v, s1).

(** ** Helpers of [cpu.c] *)

Definition cpu_clear (s : cpu) : cpu :=
  set_instruction_index
    (set_stack_size (set_status (set_registers s (mkRegs 0 0 0 0)) CPU_OK) 0) 0.

(** Returns the flag and the state, whose status is set on failure. *)
Definition reg_is_valid (s : cpu) (reg : Z) : bool * cpu :=
  if bool_decide (reg >= REGISTER_A) && bool_decide (reg <= REGISTER_D)
  then (true, s)
  else (false, set_status s CPU_ILLEGAL_OPERAND).

Definition in_stack (s : cpu) (address : Z) : option (bool * cpu) :=
  sb ← stack_bottom s;
  if bool_decide (address >= sb - stack_size s + 1) && bool_decide (address <= sb)
  then Some (true, s)
  else Some (false, set_status s CPU_INVALID_STACK_OPERATION).

Definition handle_eof (s : cpu) (reg : Z) : option cpu :=
  s ← reg_write s REGISTER_C 0;
  s ← reg_write s reg (-1);
  Some (advance s).

(** ** Instruction handlers *)

Definition nop (s : cpu) : option cpu := Some (advance s).

Definition halt (s : cpu) : option cpu := Some (set_status s CPU_HALTED).

Definition add (s : cpu) : option cpu :=
  '(reg, s) ← next_cell s;
  let '(ok, s) := reg_is_valid s reg in
  if negb ok then Some s else
  a ← reg_read s REGISTER_A;
  v ← reg_read s reg;
  s ← reg_write s REGISTER_A (wrap32 (a + v));
  Some (advance s).

Definition sub (s : cpu) : option cpu :=
  '(reg, s) ← next_cell s;
  let '(ok, s) := reg_is_valid s reg in
  if negb ok then Some s else
  a ← reg_read s REGISTER_A;
  v ← reg_read s reg;
  s ← reg_write s REGISTER_A (wrap32 (a - v));
  Some (advance s).

Definition mul (s : cpu) : option cpu :=
  '(reg, s) ← next_cell s;
  let '(ok, s) := reg_is_valid s reg in
  if negb ok then Some s else
  a ← reg_read s REGISTER_A;
  v ← reg_read s reg;
  s ← reg_write s REGISTER_A (wrap32 (a * v));
  Some (advance s).

(** C's [/] on integers truncates toward zero: [Z.quot].  The code guards
    the divisor 0 only.  The quotient of [INT32_MIN] by -1 is not an
    [int32_t]: the division has no defined value and the machine's division
    instruction traps on it, so the handler has no result there.  Every
    other quotient of two [int32_t] values is one, and [wrap32] leaves it as
    it is. *)
Definition div_reg (s : cpu) : option cpu :=
  '(reg, s) ← next_cell s;
  let '(ok, s) := reg_is_valid s reg in
  if negb ok then Some s else
  v ← reg_read s reg;
  if bool_decide (v = 0) then Some (set_status s CPU_DIV_BY_ZERO) else
  a ← reg_read s REGISTER_A;
  if bool_decide (a = INT32_MIN /\ v = -1) then None else
  s ← reg_write s REGISTER_A (wrap32 (Z.quot a v));
  Some (advance s).

Definition inc (s : cpu) : option cpu :=
  '(reg, s) ← next_cell s;
  let '(ok, s) := reg_is_valid s reg in
  if negb ok then Some s else
  v ← reg_read s reg;
  s ← reg_write s reg (wrap32 (v + 1));
  Some (advance s).

Definition dec (s : cpu) : option cpu :=
  '(reg, s) ← next_cell s;
  let '(ok, s) := reg_is_valid s reg in
  if negb ok then Some s else
  v ← reg_read s reg;
  s ← reg_write s reg (wrap32 (v - 1));
  Some (advance s).

(** [new_index] is a [size_t]; it is converted back to [int32_t] when it is
    stored in [instruction_index]. *)
Definition loop (s : cpu) : option cpu :=
  c ← reg_read s REGISTER_C;
  if bool_decide (c = 0)
  then Some (set_instruction_index s (wrap32 (instruction_index s + 2)))
  else
    '(target, s) ← next_cell s;
    let new_index := to_size_t target in
    Some (set_instruction_index s (wrap32 new_index)).

Definition movr (s : cpu) : option cpu :=
  '(reg, s) ← next_cell s;
  let '(ok, s) := reg_is_valid s reg in
  if negb ok then Some s else
  '(literal, s) ← next_cell s;
  s ← reg_write s reg literal;
  Some (advance s).

(** Returns the flag, [*reg], [*target_address] and the state.  The two out
    parameters are meaningful only as far as the C code has assigned them. *)
Definition init_reg_target_address (s : cpu) : option (bool * Z * Z * cpu) :=
  '(reg, s) ← next_cell s;
  let '(ok, s) := reg_is_valid s reg in
  if negb ok then Some (false, reg, 0, s) else
  '(num, s) ← next_cell s;
  d ← reg_read s REGISTER_D;
  let index := wrap32 (d + num) in
  sb ← stack_bottom s;
  let target_address := sb - stack_size s + index + 1 in
  '(ok, s) ← in_stack s target_address;
  if negb ok then Some (false, reg, target_address, s) else
  Some (true, reg, target_address, s).

Definition load (s : cpu) : option cpu :=
  '(ok, reg, target_address, s) ← init_reg_target_address s;
  if negb ok then Some s else
  v ← mem_read (memory s) target_address;
  s ← reg_write s reg v;
  Some (advance s).

Definition store (s : cpu) : option cpu :=
  '(ok, reg, target_address, s) ← init_reg_target_address s;
  if negb ok then Some s else
  v ← reg_read s reg;
  s ← store_cell s target_address v;
  Some (advance s).

(** [getchar()]: the next byte as a value in 0..255, or [EOF]. *)
Definition EOF : Z := -1.

Definition getchar (s : cpu) : Z * cpu :=
  match stdin s with
  | [] => (EOF, s)
  | b :: rest => (Z.of_N (Byte.to_N b), set_stdin s rest)
  end.

Definition get (s : cpu) : option cpu :=
  '(reg, s) ← next_cell s;
  let '(ok, s) := reg_is_valid s reg in
  if negb ok then Some s else
  let '(c, s) := getchar s in
  if bool_decide (c = EOF) then handle_eof s reg else
  s ← reg_write s reg c;
  Some (advance s).

Definition out (s : cpu) : option cpu :=
  '(reg, s) ← next_cell s;
  let '(ok, s) := reg_is_valid s reg in
  if negb ok then Some s else
  v ← reg_read s reg;
  let s := set_stdout s (stdout s ++ [OutInt v]) in
  Some (advance s).

Definition put (s : cpu) : option cpu :=
  '(reg, s) ← next_cell s;
  let '(ok, s) := reg_is_valid s reg in
  if negb ok then Some s else
  c ← reg_read s reg;
  if bool_decide (c < 0) || bool_decide (c > 255)
  then Some (set_status s CPU_ILLEGAL_OPERAND) else
  let s := set_stdout s (stdout s ++ [OutChar c]) in
  Some (advance s).

Definition swap (s : cpu) : option cpu :=
  '(reg1, s) ← next_cell s;
  '(reg2, s) ← next_cell s;
  let '(ok1, s) := reg_is_valid s reg1 in
  if negb ok1 then Some s else
  let '(ok2, s) := reg_is_valid s reg2 in
  if negb ok2 then Some s else
  reg2_bckp ← reg_read s reg2;
  v1 ← reg_read s reg1;
  s ← reg_write s reg2 v1;
  s ← reg_write s reg1 reg2_bckp;
  Some (advance s).

Definition push (s : cpu) : option cpu :=
  '(reg, s) ← next_cell s;
  let '(ok, s) := reg_is_valid s reg in
  if negb ok then Some s else
  sb ← stack_bottom s;
  if bool_decide (stack_size s = sb - stack_top s + 1)
  then Some (set_status s CPU_INVALID_STACK_OPERATION) else
  v ← reg_read s reg;
  s ← store_cell s (sb - stack_size s) v;
  let s := set_stack_size s (wrap32 (stack_size s + 1)) in
  Some (advance s).

Definition pop (s : cpu) : option cpu :=
  '(reg, s) ← next_cell s;
  let '(ok, s) := reg_is_valid s reg in
  if negb ok then Some s else
  if bool_decide (stack_size s <= 0)
  then Some (set_status s CPU_INVALID_STACK_OPERATION) else
  let s := set_stack_size s (wrap32 (stack_size s - 1)) in
  sb ← stack_bottom s;
  let idx := wrap32 (sb - stack_size s) in
  value ← mem_read (memory s) idx;
  s ← reg_write s reg value;
  s ← store_cell s idx 0;
  Some (advance s).

(** ** The C library's [scanf] *)

(** Outcome of [scanf("%" SCNd32, &num)]: one item converted (return value
    1), a matching failure (0), or an input failure before any conversion
    ([EOF]). *)
Inductive scan_result : Set :=
| ScanMatched (num : Z)
| ScanMismatch
| ScanEOF.

Section Machine.

(** [scanf_d32 input] is the outcome of the call on the pending input and the
    input left unread. *)
Variable scanf_d32 : list byte -> scan_result * list byte.

Definition in_ (s : cpu) : option cpu :=
  '(reg, s) ← next_cell s;
  let '(ok, s) := reg_is_valid s reg in
  if negb ok then Some s else
  let '(result, rest) := scanf_d32 (stdin s) in
  let s := set_stdin s rest in
  match result with
  | ScanMismatch => Some (set_status s CPU_IO_ERROR)
  | ScanEOF => handle_eof s reg
  | ScanMatched num =>
      s ← reg_write s reg (wrap32 num);
      Some (advance s)
  end.

Definition instructions : list (cpu -> option cpu) :=
  [ nop; halt; add; sub; mul; div_reg; inc; dec; loop; movr; load; store;
    in_; get; out; put; swap; push; pop ].

(** ** The execution driver *)

(** The state after the call and the returned [int]. *)
Definition cpu_step (s : cpu) : option (cpu * Z) :=
  if bool_decide (status s ≠ CPU_OK) then Some (s, 0) else
  let index := instruction_index s in
  if bool_decide (index < 0) || bool_decide (index > stack_top s - 1)
  then Some (set_status s CPU_INVALID_ADDRESS, 0) else
  instruction ← mem_read (memory s) index;
  if bool_decide (instruction < 0) || bool_decide (instruction > 18)
  then Some (set_status s CPU_ILLEGAL_INSTRUCTION, 0) else
  handler ← instructions !! Z.to_nat instruction;
  s ← handler s;
  if bool_decide (status s ≠ CPU_OK) then Some (s, 0) else Some (s, 1).

(** The [while] loop of [cpu_run].  Each iteration increases [performed],
    which stays below [steps], so [fuel = steps - performed] iterations are
    always enough (see [run_loop_fuel]). *)
Fixpoint run_loop (fuel : nat) (steps : Z) (s : cpu) (performed : Z)
  : option (cpu * Z) :=
  if bool_decide (status s = CPU_OK) && bool_decide (performed < steps) then
    match fuel with
    | O => None
    | S fuel' =>
        '(s', _) ← cpu_step s;
        run_loop fuel' steps s' (performed + 1)
    end
  else Some (s, performed).

(** [steps] is the [size_t] argument; the loop compares against
    [(long long) steps].  [performed] stays below that limit, so
    [performed++] never overflows. *)
Definition cpu_run (s : cpu) (steps : Z) : option (cpu * Z) :=
  if bool_decide (status s ≠ CPU_OK) then Some (s, 0) else
  let limit := to_long_long steps in
  '(s, performed) ← run_loop (Z.to_nat limit) limit s 0;
  if bool_decide (status s = CPU_OK) || bool_decide (status s = CPU_HALTED)
  then Some (s, performed)
  else Some (s, - performed).

(** ** Construction and reset *)

(** [stack_capacity] is a [size_t]; [stack_bottom] is the index handed over by
    the loader.  [input] is the standard input the process starts with.  The
    fields of the fresh [struct] are indeterminate until they are assigned;
    each of them is assigned here.  The path on which [malloc] fails and
    [NULL] is returned is left out: a [struct cpu] exists only on the other
    one.  [stack_top] is the index of the pointer
    [stack_bottom - stack_capacity + 1] as long as that pointer lies in the
    buffer, which the representation invariant ([0 <= stack_top]) requires.
    For a [stack_capacity] so large that it does not (from 2^62 up the
    offset in bytes even wraps in the address computation) the index here
    need not be the one of the code; no machine of this development has
    such a capacity. *)
Definition cpu_create (memory : list Z) (stack_bottom : Z) (stack_capacity : Z)
    (input : list byte) : cpu :=
  let s := mkCpu (mkRegs 0 0 0 0) CPU_OK 0 0 [] None 0 input [] in
  let s := cpu_clear s in
  let s := set_memory s memory in
  let s := set_stack_bottom s (Some stack_bottom) in
  set_stack_top s (stack_bottom - stack_capacity + 1).

(** The accessors.  Their [assert] on [reg] aborts the process: no result. *)
Definition cpu_get_register (s : cpu) (reg : Z) : option Z := reg_read s reg.

Definition cpu_set_register (s : cpu) (reg : Z) (value : Z) : option cpu :=
  reg_write s reg value.

Definition cpu_get_status (s : cpu) : cpu_status := status s.

Definition cpu_get_stack_size (s : cpu) : Z := stack_size s.

(** [memset(&memory[start], 0, nbytes)] on whole cells. *)
Fixpoint zero_cells (m : list Z) (start : Z) (count : nat) : option (list Z) :=
  match count with
  | O => Some m
  | S count' => m' ← mem_write m start 0; zero_cells m' (start + 1) count'
  end.

Definition memset_zero (m : list Z) (start : Z) (nbytes : Z) : option (list Z) :=
  zero_cells m start (Z.to_nat (nbytes / CELL_SIZE)).

Definition cpu_reset (s : cpu) : option cpu :=
  let s := cpu_clear s in
  sb ← stack_bottom s;
  m ← memset_zero (memory s) sb (to_size_t (wrap32 (stack_size s * CELL_SIZE)));
  let s := set_memory s m in
  Some (set_stack_bottom s None).

End Machine.

(** ** The memory loader *)

Section Loader.

(** Whether a [malloc] or [realloc] request of that many bytes succeeds. *)
Variable alloc_ok : Z -> bool.

(** How the host reads four consecutive bytes as one [int32_t]. *)
Variable cell_of_bytes : byte -> byte -> byte -> byte -> Z.

(** The [fgetc] loop.  [buf] holds the bytes stored so far: the store
    [memory_init[size++] = c] appends, [size] being their number. *)
Fixpoint read_program (program : list byte) (buf : list byte) (size capacity : Z)
  : option (list byte * Z * Z) :=
  match program with
  | [] => Some (buf, size, capacity)
  | c :: rest =>
      capacity ←
        (if bool_decide (wrap32 (size + 1) > capacity) then
           let capacity := wrap32 (capacity + BLOCK_SIZE) in
           if alloc_ok (to_size_t capacity) then Some capacity else None
         else Some capacity);
      read_program rest (buf ++ [c]) (wrap32 (size + 1)) capacity
  end.

Fixpoint cells_of_bytes (bs : list byte) : list Z :=
  match bs with
  | b0 :: b1 :: b2 :: b3 :: rest => cell_of_bytes b0 b1 b2 b3 :: cells_of_bytes rest
  | _ => []
  end.

(** [None] is the [NULL] result; otherwise the buffer, as cells, and the index
    of [*stack_bottom]. *)
Definition cpu_create_memory (program : list byte) (stack_capacity : Z)
  : option (list Z * Z) :=
  let capacity := BLOCK_SIZE in
  if negb (alloc_ok (to_size_t capacity)) then None else
  '(buf, size, capacity) ← read_program program [] 0 capacity;
  if bool_decide (Z.rem size CELL_SIZE ≠ 0) then None else
  capacity ←
    (if bool_decide (to_size_t (wrap32 (capacity - size))
                     < to_size_t (stack_capacity * CELL_SIZE)) then
       let blocks :=
         to_size_t ((stack_capacity - 1) * CELL_SIZE - capacity + size + BLOCK_SIZE)
         / BLOCK_SIZE in
       let capacity := wrap32 (capacity + to_size_t (BLOCK_SIZE * blocks)) in
       if alloc_ok (to_size_t capacity) then Some capacity else None
     else Some capacity);
  let stack_bottom := Z.quot capacity CELL_SIZE - 1 in
  let occupied_cells := Z.quot size CELL_SIZE in
  let zeros := replicate (Z.to_nat (stack_bottom - occupied_cells + 1)) 0 in
  Some (cells_of_bytes buf ++ zeros, stack_bottom).

(** What [main] does with a program: no [struct cpu] is created when the
    loader returns [NULL]. *)
Definition load_machine (program : list byte) (stack_capacity : Z)
    (input : list byte) : option cpu :=
  '(memory, stack_bottom) ← cpu_create_memory program stack_capacity;
  Some (cpu_create memory stack_bottom stack_capacity input).

End Loader.

(** Little-endian hosts. *)
Definition cell_le (b0 b1 b2 b3 : byte) : Z :=
  wrap32 (Z.of_N (Byte.to_N b0) + 2 ^ 8 * Z.of_N (Byte.to_N b1)
          + 2 ^ 16 * Z.of_N (Byte.to_N b2) + 2 ^ 24 * Z.of_N (Byte.to_N b3)).

(** ** Well-formed machine states *)

#[global] Instance is_int32_dec z : Decision (is_int32 z).
Proof. unfold is_int32. apply _. Defined.

Definition regs_int32 (rf : regfile) : Prop :=
  is_int32 (reg_a rf) /\ is_int32 (reg_b rf) /\ is_int32 (reg_c rf) /\ is_int32 (reg_d rf).

(** The representation invariant of [struct cpu], [sb] being the index in
    [stack_bottom]: the stack region [stack_top .. stack_bottom] lies inside
    the buffer, [stack_size] counts cells of it, and every [int32_t] holds a
    32-bit value. *)
Definition wf_at (s : cpu) (sb : Z) : Prop :=
  0 <= stack_top s <= sb + 1 /\
  sb < Z.of_nat (length (memory s)) /\
  Z.of_nat (length (memory s)) <= INT32_MAX /\
  0 <= stack_size s <= sb - stack_top s + 1 /\
  is_int32 (instruction_index s) /\
  regs_int32 (registers s) /\
  Forall is_int32 (memory s).

Definition wf (s : cpu) : Prop :=
  exists sb, stack_bottom s = Some sb /\ wf_at s sb.

#[global] Instance wf_dec s : Decision (wf s).
Proof.
  unfold wf. destruct (stack_bottom s) as [sb|].
  - destruct (decide (wf_at s sb)) as [H|H].
    + left. exists sb. split; [reflexivity|exact H].
    + right. intros (sb' & Heq & H'). apply H. injection Heq as <-. exact H'.
  - right. intros (sb' & Heq & _). discriminate Heq.
Defined.

(** The number of cells between [stack_top] and [stack_bottom]. *)
Definition capacity (s : cpu) : Z :=
  match stack_bottom s with
  | Some sb => sb - stack_top s + 1
  | None => 0
  end.

(** The instruction index is in the code region [0, stack_top). *)
Definition in_code (s : cpu) : Prop := 0 <= instruction_index s < stack_top s.

(** ** Executions *)

Section Executions.

Variable scanf_d32 : list byte -> scan_result * list byte.

(** [n] calls of [cpu_step] in a row. *)
Fixpoint cpu_steps (n : nat) (s : cpu) : option cpu :=
  match n with
  | O => Some s
  | S n' => '(s', _) ← cpu_step scanf_d32 s; cpu_steps n' s'
  end.

(** The states that single steps reach from [init]. *)
Inductive reachable (init : cpu) : cpu -> Prop :=
| reachable_init : reachable init init
| reachable_step s s' r :
    reachable init s -> cpu_step scanf_d32 s = Some (s', r) -> reachable init s'.

(** [performs s k s']: [k] steps, each one started with status [CPU_OK], lead
    from [s] to [s']. *)
Inductive performs : cpu -> nat -> cpu -> Prop :=
| performs_O s : performs s O s
| performs_S s s1 r k s' :
    status s = CPU_OK -> cpu_step scanf_d32 s = Some (s1, r) ->
    performs s1 k s' -> performs s (S k) s'.

(** The four ways a step can go. *)
Inductive step_case (s : cpu) (s' : cpu) (r : Z) : Prop :=
| step_idle : status s ≠ CPU_OK -> s' = s -> r = 0 -> step_case s s' r
| step_bad_address :
    status s = CPU_OK -> ~ in_code s ->
    s' = set_status s CPU_INVALID_ADDRESS -> r = 0 -> step_case s s' r
| step_bad_opcode op :
    status s = CPU_OK -> in_code s ->
    mem_read (memory s) (instruction_index s) = Some op -> ~ (0 <= op <= 18) ->
    s' = set_status s CPU_ILLEGAL_INSTRUCTION -> r = 0 -> step_case s s' r
| step_handler op h :
    status s = CPU_OK -> in_code s ->
    mem_read (memory s) (instruction_index s) = Some op -> 0 <= op <= 18 ->
    instructions scanf_d32 !! Z.to_nat op = Some h -> h s = Some s' ->
    r = (if bool_decide (status s' ≠ CPU_OK) then 0 else 1) -> step_case s s' r.

End Executions.

(** How many operand cells a handler has read when it gives up with status
    [st]: [swap] reads both operands before it validates either; [load] and
    [store] have read both when the address check fails; [halt] has none. *)
Definition operand_cells_read (op : Z) (st : cpu_status) : Z :=
  if bool_decide (op = 1) then 0
  else if bool_decide (op = 16) then 2
  else if bool_decide ((op = 10 \/ op = 11) /\ st = CPU_INVALID_STACK_OPERATION) then 2
  else 1.


(** ** Sample machines *)

(** A standard input that is closed: every conversion reports end of
    input. *)
Definition scanf_eof (input : list byte) : scan_result * list byte :=
  (ScanEOF, input).

(** An allocator that never fails. *)
Definition alloc_always (_ : Z) : bool := true.

(** A machine of 16 cells, the upper 8 of which are the stack, with [code]
    at index 0, the registers preset and no input. *)
Definition machine_with (code : list Z) (rf : regfile) : cpu :=
  set_registers
    (cpu_create (code ++ replicate (16 - length code) 0) 15 8 []) rf.

(** [movr A, 42; out A; halt] *)
Definition print_42 : cpu := machine_with [9; 0; 42; 14; 0; 1] (mkRegs 0 0 0 0).

(** [push A; pop B; halt] with A preset to 7 *)
Definition push_pop_7 : cpu := machine_with [17; 0; 18; 1; 1] (mkRegs 7 0 0 0).

(** [div B; halt] with A = 7 and B = 0 *)
Definition div_by_zero : cpu := machine_with [5; 1; 1] (mkRegs 7 0 0 0).

(** [div B; halt] with A = -7 and B = 2 *)
Definition div_by_two : cpu := machine_with [5; 1; 1] (mkRegs (-7) 2 0 0).

(** [pop A] on the empty stack *)
Definition pop_empty : cpu := machine_with [18; 0] (mkRegs 0 0 0 0).

(** [get C; halt] and [get B; halt] with no input left *)
Definition get_c : cpu := machine_with [13; 2; 1] (mkRegs 5 6 7 8).
Definition get_b : cpu := machine_with [13; 1; 1] (mkRegs 5 6 7 8).

(** [halt] *)
Definition just_halt : cpu := machine_with [1] (mkRegs 0 0 0 0).

(** The bytes of [movr C, 1; loop 5000] on a little-endian host. *)
Definition jump_out_bytes : list byte :=
  [ x09; x00; x00; x00;   x02; x00; x00; x00;   x01; x00; x00; x00;
    x08; x00; x00; x00;   x88; x13; x00; x00 ]%byte.

(** That program loaded with the default stack capacity of 256 cells: one
    block of 1024 cells, the stack region being 768..1023. *)
Definition jump_out_init : cpu :=
  cpu_create ([9; 2; 1; 8; 5000] ++ replicate 1019 0) 1023 256 [].

Definition jump_out_after_movr : cpu :=
  set_registers (set_instruction_index jump_out_init 3) (mkRegs 0 0 1 0).

Definition jump_out_after_loop : cpu :=
  set_instruction_index jump_out_after_movr 5000.

(** Three bytes: not a whole cell. *)
Definition three_bytes : list byte := [ x09; x00; x00 ]%byte.

(** ** The stack as a list, and the cells below it *)

(** The live stack, most recent push first: the [stack_size] cells that end
    at [stack_bottom]. *)
Definition live_stack (s : cpu) : list Z :=
  match stack_bottom s with
  | Some sb =>
      take (Z.to_nat (stack_size s))
           (drop (Z.to_nat (sb - stack_size s + 1)) (memory s))
  | None => []
  end.

(** Every cell of the stack region that is not live holds 0. *)
Definition free_stack_zero (s : cpu) : Prop :=
  forall sb i,
    stack_bottom s = Some sb ->
    stack_top s <= i <= sb - stack_size s ->
    mem_read (memory s) i = Some 0.

(** The machine is about to execute opcode [op]: status [CPU_OK], the
    instruction index in the code region, and [op] in the cell it
    designates. *)
Definition fetches (s : cpu) (op : Z) : Prop :=
  status s = CPU_OK /\ in_code s /\
  mem_read (memory s) (instruction_index s) = Some op.

(** The [k]-th operand cell of the instruction at the index holds [v]. *)
Definition operand (s : cpu) (k : Z) (v : Z) : Prop :=
  mem_read (memory s) (instruction_index s + k) = Some v.

(** What [add] (2), [sub] (3) and [mul] (4) compute, before it is cut to 32
    bits. *)
(** The one instruction with no result on a well-formed machine: [div r]
    with [INT32_MIN] in A and -1 in [r]. *)
Definition div_overflows (s : cpu) : Prop :=
  fetches s 5 /\
  exists r, operand s 1 r /\
            reg_read s REGISTER_A = Some INT32_MIN /\ reg_read s r = Some (-1).

Definition arith_result (op a v : Z) : Z :=
  if bool_decide (op = 2) then a + v
  else if bool_decide (op = 3) then a - v
  else a * v.


(** ** src/main.c *)

Definition INT_MAX : Z := 2147483647.

(** [int run_result = cpu_run(cp, INT_MAX)]: the [long long] that
    [cpu_run] returns, converted to [int]. *)
Definition main_run_result (scanf_d32 : list byte -> scan_result * list byte)
    (s : cpu) : option (cpu * Z) :=
  '(s', result) ← cpu_run scanf_d32 s INT_MAX; Some (s', wrap32 result).

(** ** More sample machines *)

(** A [scanf] for one-digit numbers. *)
Definition scanf_digit (input : list byte) : scan_result * list byte :=
  match input with
  | [] => (ScanEOF, [])
  | b :: rest =>
      let c := Z.of_N (Byte.to_N b) in
      if bool_decide (48 <= c <= 57) then (ScanMatched (c - 48), rest)
      else (ScanMismatch, input)
  end.

(** As [machine_with], with two values on the stack: 8 on top of 9. *)
Definition machine_with_stack (code : list Z) (rf : regfile) : cpu :=
  set_stack_size
    (set_memory (machine_with code rf)
       (code ++ replicate (14 - length code) 0 ++ [8; 9])) 2.

(** [add B; halt], [inc B; halt], [loop 0], [swap A, B; halt] *)
Definition add_b : cpu := machine_with [2; 1; 1] (mkRegs 5 6 7 8).
Definition inc_b : cpu := machine_with [6; 1; 1] (mkRegs 5 6 7 8).
Definition loop_back : cpu := machine_with [8; 0] (mkRegs 0 0 3 0).
Definition swap_a_b : cpu := machine_with [16; 0; 1; 1] (mkRegs 5 6 7 8).

(** [load B, 1; halt], [store A, 1; load B, 1; halt] and [pop B; halt] on
    the stack of two, with D = 0 *)
Definition load_b : cpu := machine_with_stack [10; 1; 1; 1] (mkRegs 5 6 7 0).
Definition store_a : cpu :=
  machine_with_stack [11; 0; 1; 10; 1; 1; 1] (mkRegs 5 6 7 0).
Definition pop_b : cpu := machine_with_stack [18; 1; 1] (mkRegs 5 6 7 0).

(** [get B; halt] with the input [A], [in B; halt] with the input [7] *)
Definition get_b_fed : cpu := set_stdin get_b [x41%byte].
Definition in_b : cpu :=
  set_stdin (machine_with [12; 1; 1] (mkRegs 5 6 7 8)) [x37%byte].

(** [out A; halt] with A = 42, [put A; halt] with A = 65 *)
Definition out_a : cpu := machine_with [14; 0; 1] (mkRegs 42 0 0 0).
Definition put_a : cpu := machine_with [15; 0; 1] (mkRegs 65 0 0 0).

(** [add] with register 7, and a cell that is no opcode *)
Definition add_bad : cpu := machine_with [2; 7; 1] (mkRegs 5 6 7 8).
Definition bad_opcode : cpu := machine_with [19] (mkRegs 0 0 0 0).

(** [nop; nop; nop; halt] *)
Definition nops : cpu := machine_with [0; 0; 0; 1] (mkRegs 0 0 0 0).

(** [print_42] after its first step, and after its last *)
Definition print_42_after_movr : cpu :=
  set_instruction_index (set_registers print_42 (mkRegs 42 0 0 0)) 3.
Definition print_42_done : cpu :=
  set_stdout
    (set_status (set_instruction_index print_42_after_movr 5) CPU_HALTED)
    [OutInt 42].

(** [push_pop_7] after [cpu_reset] *)
Definition push_pop_7_reset : cpu := set_stack_bottom (cpu_clear push_pop_7) None.

(** [div B] with [INT32_MIN] in A and -1 in B; and the program
    [movr A, INT32_MIN; movr B, -1; div B] that gets there in two steps *)
Definition div_overflow : cpu :=
  machine_with [5; 1; 1] (mkRegs (-2147483648) (-1) 0 0).
Definition div_overflow_program : cpu :=
  machine_with [9; 0; -2147483648; 9; 1; -1; 5; 1] (mkRegs 0 0 0 0).
Definition div_overflow_reached : cpu :=
  set_instruction_index
    (set_registers div_overflow_program (mkRegs (-2147483648) (-1) 0 0)) 6.
(** ** Machine integers: facts *)

Lemma wrap32_id z : is_int32 z -> wrap32 z = z.
Proof.
  unfold is_int32, INT32_MIN, INT32_MAX, wrap32. intros H.
  rewrite Z.mod_small; lia.
Qed.

Lemma wrap32_int32 z : is_int32 (wrap32 z).
Proof.
  unfold is_int32, INT32_MIN, INT32_MAX, wrap32.
  pose proof (Z.mod_pos_bound (z + 2 ^ 31) (2 ^ 32) ltac:(lia)). lia.
Qed.

Lemma wrap32_size_t z : wrap32 (to_size_t z) = wrap32 z.
Proof.
  unfold wrap32, to_size_t. f_equal.
  rewrite (Z.div_mod z (2 ^ 64)) at 2 by lia.
  replace (2 ^ 64 * (z `div` 2 ^ 64) + z `mod` 2 ^ 64 + 2 ^ 31)
    with (z `mod` 2 ^ 64 + 2 ^ 31 + (2 ^ 32 * (z `div` 2 ^ 64)) * 2 ^ 32) by lia.
  by rewrite Z.mod_add by lia.
Qed.

Lemma to_long_long_le z : 0 <= z -> to_long_long z <= z.
Proof.
  unfold to_long_long. intros H.
  pose proof (Z.mod_le (z + 2 ^ 63) (2 ^ 64) ltac:(lia) ltac:(lia)). lia.
Qed.

(** ** Memory and registers: facts *)

Lemma mem_read_Some m i v :
  mem_read m i = Some v -> 0 <= i < Z.of_nat (length m).
Proof.
  unfold mem_read. case_bool_decide; [|done]. intros Hl%lookup_lt_Some. lia.
Qed.

Lemma mem_read_is_Some m i :
  0 <= i < Z.of_nat (length m) -> is_Some (mem_read m i).
Proof.
  intros H. unfold mem_read. rewrite bool_decide_eq_true_2 by lia.
  apply lookup_lt_is_Some. lia.
Qed.

Lemma mem_read_int32 m i v :
  mem_read m i = Some v -> Forall is_int32 m -> is_int32 v.
Proof.
  unfold mem_read. case_bool_decide; [|done]. intros Hl Hm.
  by eapply Forall_lookup_1.
Qed.

Lemma mem_write_is_Some m i v :
  0 <= i < Z.of_nat (length m) -> is_Some (mem_write m i v).
Proof. intros H. unfold mem_write. rewrite bool_decide_eq_true_2; eauto. Qed.

Lemma mem_write_length m i v m' :
  mem_write m i v = Some m' -> length m' = length m.
Proof.
  unfold mem_write. case_bool_decide; [|done]. intros [= <-]. apply length_insert.
Qed.

Lemma mem_write_int32 m i v m' :
  mem_write m i v = Some m' -> Forall is_int32 m -> is_int32 v -> Forall is_int32 m'.
Proof.
  unfold mem_write. case_bool_decide; [|done]. intros [= <-] Hm Hv.
  by apply Forall_insert.
Qed.

Lemma mem_read_write_eq m i v m' :
  mem_write m i v = Some m' -> mem_read m' i = Some v.
Proof.
  unfold mem_write, mem_read. case_bool_decide; [|done]. intros [= <-].
  rewrite bool_decide_eq_true_2 by lia. apply list_lookup_insert_eq. lia.
Qed.

Lemma mem_read_write_ne m i j v m' :
  i <> j -> mem_write m i v = Some m' -> mem_read m' j = mem_read m j.
Proof.
  unfold mem_write, mem_read. intros Hne. case_bool_decide; [|done]. intros [= <-].
  case_bool_decide; [|done]. apply list_lookup_insert_ne. lia.
Qed.

Lemma rf_get_is_Some rf reg : 0 <= reg <= 3 -> is_Some (rf_get rf reg).
Proof.
  intros H. assert (reg = 0 \/ reg = 1 \/ reg = 2 \/ reg = 3) as Hr by lia.
  destruct Hr as [-> | [-> | [-> | ->]]]; simpl; eauto.
Qed.

Lemma rf_get_Some rf reg v : rf_get rf reg = Some v -> 0 <= reg <= 3.
Proof.
  destruct reg as [|p|p]; [simpl; lia | | done].
  destruct p as [[]|[]|]; simpl; try done; lia.
Qed.

Lemma rf_set_is_Some rf reg v : 0 <= reg <= 3 -> is_Some (rf_set rf reg v).
Proof.
  intros H. assert (reg = 0 \/ reg = 1 \/ reg = 2 \/ reg = 3) as Hr by lia.
  destruct Hr as [-> | [-> | [-> | ->]]]; simpl; eauto.
Qed.

Lemma rf_set_Some rf reg v rf' : rf_set rf reg v = Some rf' -> 0 <= reg <= 3.
Proof.
  destruct reg as [|p|p]; [simpl; lia | | done].
  destruct p as [[]|[]|]; simpl; try done; lia.
Qed.

Lemma rf_get_set_eq rf reg v rf' :
  rf_set rf reg v = Some rf' -> rf_get rf' reg = Some v.
Proof.
  intros H. pose proof (rf_set_Some _ _ _ _ H) as Hr.
  assert (reg = 0 \/ reg = 1 \/ reg = 2 \/ reg = 3) as Hc by lia.
  destruct Hc as [-> | [-> | [-> | ->]]]; simpl in *; by simplify_eq.
Qed.

Lemma rf_get_set_ne rf reg reg' v rf' :
  reg <> reg' -> rf_set rf reg v = Some rf' -> rf_get rf' reg' = rf_get rf reg'.
Proof.
  intros Hne H. pose proof (rf_set_Some _ _ _ _ H) as Hr.
  assert (reg = 0 \/ reg = 1 \/ reg = 2 \/ reg = 3) as Hc by lia.
  destruct Hc as [-> | [-> | [-> | ->]]]; simpl in *; simplify_eq;
    destruct reg' as [|p|p]; try done; destruct p as [[]|[]|]; simpl; done.
Qed.

Lemma rf_get_int32 rf reg v : rf_get rf reg = Some v -> regs_int32 rf -> is_int32 v.
Proof.
  intros H (Ha & Hb & Hc & Hd). pose proof (rf_get_Some _ _ _ H) as Hr.
  assert (reg = 0 \/ reg = 1 \/ reg = 2 \/ reg = 3) as Hx by lia.
  destruct Hx as [-> | [-> | [-> | ->]]]; simpl in *; by simplify_eq.
Qed.

Lemma rf_set_int32 rf reg v rf' :
  rf_set rf reg v = Some rf' -> regs_int32 rf -> is_int32 v -> regs_int32 rf'.
Proof.
  intros H (Ha & Hb & Hc & Hd) Hv. pose proof (rf_set_Some _ _ _ _ H) as Hr.
  assert (reg = 0 \/ reg = 1 \/ reg = 2 \/ reg = 3) as Hx by lia.
  destruct Hx as [-> | [-> | [-> | ->]]]; simpl in *; simplify_eq;
    unfold regs_int32; simpl; tauto.
Qed.

#[global] Arguments rf_get : simpl never.
#[global] Arguments rf_set : simpl never.
#[global] Arguments mem_read : simpl never.
#[global] Arguments mem_write : simpl never.
#[global] Arguments wrap32 : simpl never.
#[global] Arguments to_size_t : simpl never.

(** ** Inversion of the primitive operations *)

Lemma next_cell_Some s v s1 :
  next_cell s = Some (v, s1) ->
  s1 = advance s /\ mem_read (memory s) (wrap32 (instruction_index s + 1)) = Some v.
Proof.
  unfold next_cell. simpl.
  destruct (mem_read (memory s) (wrap32 (instruction_index s + 1))); simpl; [|done].
  by intros [= <- <-].
Qed.

Lemma reg_is_valid_true s reg s1 :
  reg_is_valid s reg = (true, s1) -> s1 = s /\ 0 <= reg <= 3.
Proof.
  unfold reg_is_valid, REGISTER_A, REGISTER_D.
  repeat case_bool_decide; simpl; intros [=]; subst. split; [done|lia].
Qed.

Lemma reg_is_valid_false s reg s1 :
  reg_is_valid s reg = (false, s1) ->
  s1 = set_status s CPU_ILLEGAL_OPERAND /\ ~ (0 <= reg <= 3).
Proof.
  unfold reg_is_valid, REGISTER_A, REGISTER_D.
  repeat case_bool_decide; simpl; intros [=]; subst; (split; [done|lia]).
Qed.

Lemma in_stack_true s address s1 :
  in_stack s address = Some (true, s1) ->
  s1 = s /\ exists sb, stack_bottom s = Some sb /\ sb - stack_size s + 1 <= address <= sb.
Proof.
  unfold in_stack. destruct (stack_bottom s) as [sb|]; simpl; [|done].
  repeat case_bool_decide; simpl; intros [=]; subst. split; [done|]. exists sb. split; [done|lia].
Qed.

Lemma in_stack_false s address s1 :
  in_stack s address = Some (false, s1) ->
  s1 = set_status s CPU_INVALID_STACK_OPERATION /\
  exists sb, stack_bottom s = Some sb /\ ~ (sb - stack_size s + 1 <= address <= sb).
Proof.
  unfold in_stack. destruct (stack_bottom s) as [sb|]; simpl; [|done].
  repeat case_bool_decide; simpl; intros [=]; subst;
    (split; [done|]; exists sb; split; [done|lia]).
Qed.

Lemma reg_write_Some s reg v s1 :
  reg_write s reg v = Some s1 ->
  exists rf, rf_set (registers s) reg v = Some rf /\ s1 = set_registers s rf.
Proof.
  unfold reg_write. destruct (rf_set (registers s) reg v) as [rf|]; simpl; [|done].
  intros [= <-]. eauto.
Qed.

Lemma store_cell_Some s i v s1 :
  store_cell s i v = Some s1 ->
  exists m, mem_write (memory s) i v = Some m /\ s1 = set_memory s m.
Proof.
  unfold store_cell. destruct (mem_write (memory s) i v) as [m|]; simpl; [|done].
  intros [= <-]. eauto.
Qed.

Lemma getchar_inv s c s1 :
  getchar s = (c, s1) ->
  (c = EOF /\ s1 = s /\ stdin s = []) \/
  (exists b rest, stdin s = b :: rest /\ c = Z.of_N (Byte.to_N b) /\ s1 = set_stdin s rest).
Proof.
  unfold getchar. destruct (stdin s) as [|b rest]; intros [= <- <-]; [by left|].
  right. by exists b, rest.
Qed.

(** One step of case analysis on [H : handler s = Some s'] after unfolding. *)
Ltac inv_step H :=
  match type of H with
  | Some _ = Some _ => injection H as H; subst
  | Some _ = None => discriminate H
  | None = Some _ => discriminate H
  | (let '(_, _) := ?x in _) = Some _ => destruct x eqn:?
  | (if negb ?b then _ else _) = Some _ =>
      destruct b eqn:?; simpl negb in H; cbv iota in H
  | (if bool_decide ?P then _ else _) = Some _ => destruct (bool_decide_reflect P)
  | (if bool_decide ?P || bool_decide ?Q then _ else _) = Some _ =>
      destruct (bool_decide_reflect P); destruct (bool_decide_reflect Q);
      simpl orb in H; cbv iota in H
  | mbind _ ?m = Some _ =>
      let E := fresh "E" in
      destruct m eqn:E; [cbn [mbind option_bind] in H|discriminate H]
  | (match ?x with ScanMatched _ => _ | _ => _ end) = Some _ => destruct x eqn:?
  end.

(** Replace the intermediate states by what the primitives say they are. *)
Ltac inv_prims :=
  repeat match goal with
  | H : next_cell _ = Some (_, _) |- _ =>
      apply next_cell_Some in H; destruct H as [-> H]
  | H : reg_is_valid _ _ = (true, _) |- _ =>
      apply reg_is_valid_true in H; destruct H as [-> H]
  | H : reg_is_valid _ _ = (false, _) |- _ =>
      apply reg_is_valid_false in H; destruct H as [-> H]
  | H : in_stack _ _ = Some (true, _) |- _ =>
      apply in_stack_true in H; destruct H as [-> (? & ? & H)]
  | H : in_stack _ _ = Some (false, _) |- _ =>
      apply in_stack_false in H; destruct H as [-> (? & ? & H)]
  | H : reg_write _ _ _ = Some _ |- _ =>
      apply reg_write_Some in H; destruct H as (? & H & ->)
  | H : store_cell _ _ _ = Some _ |- _ =>
      apply store_cell_Some in H; destruct H as (? & H & ->)
  | H : getchar _ = (_, _) |- _ =>
      apply getchar_inv in H;
      destruct H as [(? & ? & H) | (? & ? & H & ? & ?)]; unfold EOF in *; subst
  end.

Ltac inv_handler H := repeat inv_step H; inv_prims.




Lemma init_reg_target_address_inv s ok reg target s1 :
  init_reg_target_address s = Some (ok, reg, target, s1) ->
  mem_read (memory s) (wrap32 (instruction_index s + 1)) = Some reg /\
  ((~ 0 <= reg <= 3 /\ ok = false /\ s1 = set_status (advance s) CPU_ILLEGAL_OPERAND) \/
   (0 <= reg <= 3 /\
    exists num d sb,
      mem_read (memory s) (wrap32 (wrap32 (instruction_index s + 1) + 1)) = Some num /\
      reg_read s REGISTER_D = Some d /\
      stack_bottom s = Some sb /\
      target = sb - stack_size s + wrap32 (d + num) + 1 /\
      ((ok = true /\ s1 = advance (advance s) /\
        sb - stack_size s + 1 <= target <= sb) \/
       (ok = false /\
        ~ (sb - stack_size s + 1 <= target <= sb) /\
        s1 = set_status (advance (advance s)) CPU_INVALID_STACK_OPERATION)))).
Proof.
  intros H. unfold init_reg_target_address in H. inv_handler H.
  all: split; [done|]; cbn in *; simplify_eq.
  - right. split; [done|]. eexists _, _, _. split_and!; eauto.
  - right. split; [done|]. eexists _, _, _. split_and!; eauto.
  - left. done.
Qed.

Ltac inv_target :=
  match goal with
  | H : init_reg_target_address _ = Some (_, _, _, _) |- _ =>
      apply init_reg_target_address_inv in H;
      destruct H as
        [? [(? & ? & ->) |
            (? & ?num & ?d & ?sb & ? & ? & ? & -> &
             [(? & -> & ?) | (? & ? & ->)])]];
      simplify_eq
  end.

Create HintDb cpu discriminated.
#[local] Hint Resolve wrap32_int32 rf_get_int32 rf_set_int32 mem_read_int32
  mem_write_int32 : cpu.

Lemma is_int32_byte b : is_int32 (Z.of_N (Byte.to_N b)).
Proof.
  pose proof (Byte.to_N_bounded b) as Hb.
  unfold is_int32, INT32_MIN, INT32_MAX. lia.
Qed.

Lemma is_int32_small z : -1 <= z <= 255 -> is_int32 z.
Proof. unfold is_int32, INT32_MIN, INT32_MAX. lia. Qed.

#[local] Hint Resolve is_int32_byte : cpu.
#[local] Hint Extern 1 (is_int32 _) => apply is_int32_small; lia : cpu.

Ltac wf_open H :=
  let sb := fresh "sb" in
  destruct H as (sb & ?Hsb & ?Htop & ?Hlen & ?Hmax & ?Hss & ?Hip & ?Hregs & ?Hmem).

Ltac int32_bounds := unfold is_int32, INT32_MIN, INT32_MAX in *.

(** Drop every [wrap32] whose argument is provably a 32-bit value. *)
Ltac unwrap32 :=
  repeat match goal with
  | |- context [wrap32 ?z] => rewrite (wrap32_id z) by (int32_bounds; lia)
  | H : context [wrap32 ?z] |- _ => rewrite (wrap32_id z) in H by (int32_bounds; lia)
  end.

Ltac wf_close :=
  unfold reg_read in *; cbn in *; simplify_eq; unwrap32;
  repeat match goal with
  | H : mem_write _ _ _ = Some _ |- _ =>
      pose proof (mem_write_length _ _ _ _ H); revert H
  end; intros;
  eexists; unfold wf_at; cbn; split_and!; eauto with cpu; try congruence; try lia.

Ltac unfold_handlers H :=
  unfold nop, halt, add, sub, mul, div_reg, inc, dec, loop, movr, load, store,
    get, out, put, swap, push, pop, handle_eof in H.

Ltac each_handler Hin :=
  unfold instructions in Hin;
  repeat (apply elem_of_cons in Hin; destruct Hin as [-> | Hin]);
    [..| by apply elem_of_nil in Hin].

Section Handlers.

Variable scanf_d32 : list byte -> scan_result * list byte.

(** *** Every handler preserves the representation invariant *)

Lemma handlers_wf (h : cpu -> option cpu) s s' :
  h ∈ instructions scanf_d32 -> wf s -> h s = Some s' -> wf s'.
Proof.
  intros Hin Hwf H. each_handler Hin.
  all: unfold in_ in H; unfold_handlers H.
  all: inv_handler H; try inv_target.
  all: wf_open Hwf.
  all: solve [wf_close].
Qed.

(** *** No handler moves the stack region *)

Lemma handlers_layout (h : cpu -> option cpu) s s' :
  h ∈ instructions scanf_d32 -> h s = Some s' ->
  stack_bottom s' = stack_bottom s /\ stack_top s' = stack_top s /\
  length (memory s') = length (memory s).
Proof.
  intros Hin H. each_handler Hin.
  all: unfold in_ in H; unfold_handlers H.
  all: inv_handler H; try inv_target.
  all: cbn; split_and!; try done.
  all: repeat match goal with
       | H : mem_write _ _ _ = Some _ |- _ => apply mem_write_length in H
       end; cbn in *; congruence.
Qed.

(** *** A handler that does not leave status [CPU_OK] behind has changed
    nothing else than the status and the instruction index *)

Ltac each_opcode op Hop Hh :=
  let Hc := fresh in
  assert (op = 0 \/ op = 1 \/ op = 2 \/ op = 3 \/ op = 4 \/ op = 5 \/ op = 6 \/
          op = 7 \/ op = 8 \/ op = 9 \/ op = 10 \/ op = 11 \/ op = 12 \/
          op = 13 \/ op = 14 \/ op = 15 \/ op = 16 \/ op = 17 \/ op = 18)
    as Hc by lia;
  clear Hop;
  repeat (destruct Hc as [-> | Hc]); [..| subst op];
  cbn in Hh; injection Hh as <-.

Ltac eval_operand_cells :=
  repeat match goal with
  | |- context [operand_cells_read ?a ?b] =>
      let v := eval vm_compute in (operand_cells_read a b) in
      change (operand_cells_read a b) with v
  end.

Lemma handler_failure_frame (op : Z) (h : cpu -> option cpu) s s' :
  0 <= op <= 18 -> instructions scanf_d32 !! Z.to_nat op = Some h ->
  status s = CPU_OK -> h s = Some s' -> status s' ≠ CPU_OK ->
  registers s' = registers s /\ memory s' = memory s /\
  stack_size s' = stack_size s /\ stdout s' = stdout s /\
  match operand_cells_read op (status s') with
  | 0 => instruction_index s' = instruction_index s
  | 1 =>
      instruction_index s' = wrap32 (instruction_index s + 1) /\
      is_Some (mem_read (memory s) (wrap32 (instruction_index s + 1)))
  | _ =>
      instruction_index s' = wrap32 (wrap32 (instruction_index s + 1) + 1) /\
      is_Some (mem_read (memory s) (wrap32 (instruction_index s + 1))) /\
      is_Some (mem_read (memory s) (wrap32 (wrap32 (instruction_index s + 1) + 1)))
  end.
Proof.
  intros Hop Hh Hok H Hst. each_opcode op Hop Hh.
  all: unfold in_ in H; unfold_handlers H.
  all: inv_handler H; try inv_target.
  all: cbn in *; try congruence.
  all: eval_operand_cells; cbn; split_and!; eauto.
Qed.

(** *** Every handler returns on a well-formed state with room for operands,
    but for [div_reg] on [INT32_MIN] and -1 *)

Lemma mem_read_None m i : mem_read m i = None -> ~ (0 <= i < Z.of_nat (length m)).
Proof.
  intros H Hi. destruct (mem_read_is_Some m i Hi) as [v Hv]. congruence.
Qed.

Lemma mem_write_None m i v : mem_write m i v = None -> ~ (0 <= i < Z.of_nat (length m)).
Proof.
  intros H Hi. destruct (mem_write_is_Some m i v Hi) as [m' Hm']. congruence.
Qed.

Lemma rf_get_None rf reg : rf_get rf reg = None -> ~ (0 <= reg <= 3).
Proof.
  intros H Hr. destruct (rf_get_is_Some rf reg Hr) as [v Hv]. congruence.
Qed.

Lemma rf_set_None rf reg v : rf_set rf reg v = None -> ~ (0 <= reg <= 3).
Proof.
  intros H Hr. destruct (rf_set_is_Some rf reg v Hr) as [rf' Hrf]. congruence.
Qed.

Lemma next_cell_None s :
  next_cell s = None -> mem_read (memory s) (wrap32 (instruction_index s + 1)) = None.
Proof.
  unfold next_cell. simpl.
  by destruct (mem_read (memory s) (wrap32 (instruction_index s + 1))).
Qed.

Lemma reg_write_None s reg v : reg_write s reg v = None -> ~ (0 <= reg <= 3).
Proof.
  unfold reg_write. destruct (rf_set (registers s) reg v) eqn:E; [done|].
  intros _. by eapply rf_set_None.
Qed.

Lemma store_cell_None s i v :
  store_cell s i v = None -> ~ (0 <= i < Z.of_nat (length (memory s))).
Proof.
  unfold store_cell. destruct (mem_write (memory s) i v) eqn:E; [done|].
  intros _. by eapply mem_write_None.
Qed.

Lemma in_stack_None s a : in_stack s a = None -> stack_bottom s = None.
Proof.
  unfold in_stack. destruct (stack_bottom s); [|done]. simpl. by case_match.
Qed.

(** Case analysis on [H : handler s = None]: finds the primitive that is
    undefined. *)
Ltac inv_none H :=
  lazymatch type of H with
  | Some _ = None => discriminate H
  | (let '(_, _) := ?x in _) = None => destruct x eqn:?; inv_none H
  | (if negb ?b then _ else _) = None =>
      destruct b eqn:?; simpl negb in H; cbv iota in H; inv_none H
  | (if bool_decide ?P then _ else _) = None =>
      destruct (bool_decide_reflect P); inv_none H
  | (if bool_decide ?P || bool_decide ?Q then _ else _) = None =>
      destruct (bool_decide_reflect P); destruct (bool_decide_reflect Q);
      simpl orb in H; cbv iota in H; inv_none H
  | mbind _ ?m = None =>
      let E := fresh "E" in
      destruct m eqn:E; [cbn [mbind option_bind] in H; inv_none H|clear H]
  | (match ?x with ScanMatched _ => _ | _ => _ end) = None => destruct x eqn:?; inv_none H
  | _ => idtac
  end.

Ltac refute_none :=
  inv_prims;
  match goal with
  | H : next_cell _ = None |- _ => apply next_cell_None, mem_read_None in H
  | H : mem_read _ _ = None |- _ => apply mem_read_None in H
  | H : reg_read _ _ = None |- _ => apply rf_get_None in H
  | H : reg_write _ _ _ = None |- _ => apply reg_write_None in H
  | H : store_cell _ _ _ = None |- _ => apply store_cell_None in H
  | H : in_stack _ _ = None |- _ => apply in_stack_None in H
  | H : stack_bottom _ = None |- _ => idtac
  end;
  unfold REGISTER_A, REGISTER_C, REGISTER_D in *; cbn in *; simplify_eq;
  repeat match goal with
  | H : mem_write _ _ _ = Some _ |- _ => apply mem_write_length in H
  end;
  first [ by (int32_bounds; lia) | unwrap32; int32_bounds; lia ].

Lemma init_reg_target_address_total s :
  wf s -> 2 <= capacity s -> 0 <= instruction_index s < stack_top s ->
  is_Some (init_reg_target_address s).
Proof.
  intros Hwf Hcap Hip.
  destruct (init_reg_target_address s) as [r|] eqn:H; [eauto|exfalso].
  unfold capacity in Hcap. wf_open Hwf. rewrite Hsb in Hcap.
  unfold init_reg_target_address in H. inv_none H.
  all: refute_none.
Qed.

Lemma handlers_total (op : Z) (h : cpu -> option cpu) s :
  0 <= op <= 18 -> instructions scanf_d32 !! Z.to_nat op = Some h ->
  wf s -> 2 <= capacity s -> 0 <= instruction_index s < stack_top s ->
  (op = 5 ->
   ~ exists r, operand s 1 r /\
               reg_read s REGISTER_A = Some INT32_MIN /\ reg_read s r = Some (-1)) ->
  is_Some (h s).
Proof.
  intros Hop Hh Hwf Hcap Hip Hdiv.
  destruct (h s) as [s'|] eqn:H; [eauto|exfalso].
  pose proof (init_reg_target_address_total s Hwf Hcap Hip) as [r Hr].
  unfold capacity in Hcap. wf_open Hwf. rewrite Hsb in Hcap.
  each_opcode op Hop Hh.
  all: unfold in_ in H; unfold_handlers H.
  all: inv_none H; try congruence.
  all: try inv_target.
  all: try solve [refute_none].
  inv_prims. destruct a as [-> ->]. apply Hdiv; [done|].
  exists z. unfold operand. split_and!; [|done..].
  rewrite wrap32_id in E by (int32_bounds; lia). done.
Qed.


(** ** Single step: case analysis *)

Lemma cpu_step_not_ok s : status s ≠ CPU_OK -> cpu_step scanf_d32 s = Some (s, 0).
Proof. intros H. unfold cpu_step. by rewrite bool_decide_eq_true_2. Qed.

Lemma cpu_step_invalid_address s :
  status s = CPU_OK -> ~ in_code s ->
  cpu_step scanf_d32 s = Some (set_status s CPU_INVALID_ADDRESS, 0).
Proof.
  intros Hok Hip. unfold cpu_step, in_code in *.
  rewrite bool_decide_eq_false_2 by (by rewrite Hok; intros []).
  repeat case_bool_decide; simpl; try done. lia.
Qed.

Lemma cpu_step_illegal_instruction s op :
  status s = CPU_OK -> in_code s ->
  mem_read (memory s) (instruction_index s) = Some op -> ~ (0 <= op <= 18) ->
  cpu_step scanf_d32 s = Some (set_status s CPU_ILLEGAL_INSTRUCTION, 0).
Proof.
  intros Hok Hip Hop Hr. unfold cpu_step, in_code in *.
  rewrite bool_decide_eq_false_2 by (by rewrite Hok; intros []).
  rewrite Hop. cbn [mbind option_bind].
  repeat case_bool_decide; simpl; try done; lia.
Qed.

Lemma cpu_step_dispatch s op h :
  status s = CPU_OK -> in_code s ->
  mem_read (memory s) (instruction_index s) = Some op -> 0 <= op <= 18 ->
  instructions scanf_d32 !! Z.to_nat op = Some h ->
  cpu_step scanf_d32 s =
    s' ← h s; Some (s', if bool_decide (status s' ≠ CPU_OK) then 0 else 1).
Proof.
  intros Hok Hip Hop Hr Hh. unfold cpu_step, in_code in *.
  rewrite bool_decide_eq_false_2 by (by rewrite Hok; intros []).
  rewrite Hop. cbn [mbind option_bind].
  repeat case_bool_decide; simpl; try lia.
  rewrite Hh. cbn [mbind option_bind].
  destruct (h s) as [s'|]; [|done]. cbn [mbind option_bind].
  by case_bool_decide.
Qed.

Lemma instructions_lookup op :
  0 <= op <= 18 -> exists h, instructions scanf_d32 !! Z.to_nat op = Some h /\ h ∈ instructions scanf_d32.
Proof.
  intros Hop.
  destruct (lookup_lt_is_Some_2 (instructions scanf_d32) (Z.to_nat op)) as [h Hh].
  { simpl. lia. }
  exists h. split; [done|]. by eapply list_elem_of_lookup_2.
Qed.

Lemma cpu_step_inv s s' r : cpu_step scanf_d32 s = Some (s', r) -> step_case scanf_d32 s s' r.
Proof.
  intros H.
  destruct (decide (status s = CPU_OK)) as [Hok|Hok];
    [|rewrite cpu_step_not_ok in H by done; simplify_eq; by constructor 1].
  destruct (decide (in_code s)) as [Hip|Hip];
    [|rewrite cpu_step_invalid_address in H by done; simplify_eq; by constructor 2].
  destruct (mem_read (memory s) (instruction_index s)) as [op|] eqn:Hop.
  2:{ unfold cpu_step, in_code in *. rewrite Hop in H.
      rewrite bool_decide_eq_false_2 in H by (by rewrite Hok; intros []).
      rewrite !bool_decide_eq_false_2 in H by lia. done. }
  destruct (decide (0 <= op <= 18)) as [Hr|Hr];
    [|erewrite cpu_step_illegal_instruction in H by done; simplify_eq;
      by econstructor 3].
  destruct (instructions_lookup op Hr) as (h & Hh & _).
  erewrite cpu_step_dispatch in H by done.
  destruct (h s) as [s1|] eqn:Hs1; [|done]. cbn [mbind option_bind] in H.
  simplify_eq. by econstructor 4.
Qed.

Lemma cpu_step_wf s s' r : wf s -> cpu_step scanf_d32 s = Some (s', r) -> wf s'.
Proof.
  intros Hwf [| | |op h ???? Hh Hs ?]%cpu_step_inv; subst; try done.
  eapply handlers_wf; [|done..]. by eapply list_elem_of_lookup_2.
Qed.

Lemma cpu_step_layout s s' r :
  cpu_step scanf_d32 s = Some (s', r) ->
  stack_bottom s' = stack_bottom s /\ stack_top s' = stack_top s /\
  length (memory s') = length (memory s).
Proof.
  intros [| | |op h ???? Hh Hs ?]%cpu_step_inv; subst; try done.
  eapply handlers_layout; [|done]. by eapply list_elem_of_lookup_2.
Qed.

Lemma cpu_step_capacity s s' r : cpu_step scanf_d32 s = Some (s', r) -> capacity s' = capacity s.
Proof.
  intros (Hb & Ht & _)%cpu_step_layout. unfold capacity. by rewrite Hb, Ht.
Qed.

Lemma wf_code_in_buffer s :
  wf s -> in_code s -> 0 <= instruction_index s < Z.of_nat (length (memory s)).
Proof. intros Hwf Hip. wf_open Hwf. unfold in_code in Hip. lia. Qed.

Lemma cpu_step_total s :
  wf s -> 2 <= capacity s -> ~ div_overflows s -> is_Some (cpu_step scanf_d32 s).
Proof.
  intros Hwf Hcap Hdiv.
  destruct (decide (status s = CPU_OK)) as [Hok|Hok];
    [|rewrite cpu_step_not_ok by done; eauto].
  destruct (decide (in_code s)) as [Hip|Hip];
    [|rewrite cpu_step_invalid_address by done; eauto].
  destruct (mem_read_is_Some (memory s) (instruction_index s)) as [op Hop];
    [by apply wf_code_in_buffer|].
  destruct (decide (0 <= op <= 18)) as [Hr|Hr];
    [|erewrite cpu_step_illegal_instruction by done; eauto].
  destruct (instructions_lookup op Hr) as (h & Hh & Hin).
  erewrite cpu_step_dispatch by done.
  destruct (handlers_total op h s Hr Hh Hwf Hcap Hip) as [s' ->]; [|simpl; eauto].
  intros -> Hov. apply Hdiv. by split.
Qed.

End Handlers.

(** ** The execution driver *)

Section Driver.

Variable scanf_d32 : list byte -> scan_result * list byte.

Lemma cpu_steps_not_ok s n :
  status s ≠ CPU_OK -> cpu_steps scanf_d32 n s = Some s.
Proof.
  intros H. induction n as [|n IH]; simpl; [done|].
  rewrite cpu_step_not_ok by done. simpl. exact IH.
Qed.

Lemma cpu_step_halt s :
  status s = CPU_OK -> in_code s ->
  mem_read (memory s) (instruction_index s) = Some 1 ->
  cpu_step scanf_d32 s = Some (set_status s CPU_HALTED, 0).
Proof.
  intros Hok Hip Hop.
  erewrite cpu_step_dispatch by (done || lia || reflexivity).
  reflexivity.
Qed.

(** C3.  A step taken when status is not [CPU_OK] returns 0 and leaves the
    whole state as it is.  Opcode 1 sets status [CPU_HALTED] and changes
    nothing else, so every step after it, however many, is such a no-op. *)
Theorem step_after_stop_is_noop (s : cpu) :
  (status s ≠ CPU_OK -> cpu_step scanf_d32 s = Some (s, 0)) /\
  (status s = CPU_OK -> in_code s ->
   mem_read (memory s) (instruction_index s) = Some 1 ->
   let halted := set_status s CPU_HALTED in
   cpu_step scanf_d32 s = Some (halted, 0) /\
   status halted = CPU_HALTED /\
   cpu_step scanf_d32 halted = Some (halted, 0) /\
   forall n, cpu_steps scanf_d32 n halted = Some halted).
Proof.
  split; [apply cpu_step_not_ok|].
  intros Hok Hip Hop halted.
  assert (status halted ≠ CPU_OK) as Hh by done.
  split_and!; [by apply cpu_step_halt|done|by apply cpu_step_not_ok|].
  intros n. by apply cpu_steps_not_ok.
Qed.

Lemma reachable_wf init s : wf init -> reachable scanf_d32 init s -> wf s.
Proof.
  intros Hinit Hr. induction Hr as [|s s' r _ IH Hstep]; [done|].
  by eapply cpu_step_wf.
Qed.

Lemma reachable_capacity init s :
  reachable scanf_d32 init s -> capacity s = capacity init.
Proof.
  intros Hr. induction Hr as [|s s' r _ IH Hstep]; [done|].
  rewrite <- IH. by eapply cpu_step_capacity.
Qed.

(** C1, as amended.  With status [CPU_OK] the instruction index is in the
    code region whenever an instruction is fetched: in a state reached from
    a well-formed initial state, either it lies in [0, stack_top) and
    designates a cell of the buffer, or the next step runs no handler, sets
    [CPU_INVALID_ADDRESS], changes nothing else and returns 0. *)
Theorem fetch_is_within_code (init s : cpu) :
  wf init -> reachable scanf_d32 init s -> status s = CPU_OK ->
  (in_code s /\ is_Some (mem_read (memory s) (instruction_index s))) \/
  (~ in_code s /\
   cpu_step scanf_d32 s = Some (set_status s CPU_INVALID_ADDRESS, 0)).
Proof.
  intros Hinit Hr Hok. destruct (decide (in_code s)) as [Hip|Hip]; [left|right].
  - split; [done|]. apply mem_read_is_Some, wf_code_in_buffer; [|done].
    by eapply reachable_wf.
  - split; [done|]. by apply cpu_step_invalid_address.
Qed.

(** *** [cpu_run] *)

Lemma reachable_after_step s s1 r t :
  cpu_step scanf_d32 s = Some (s1, r) ->
  reachable scanf_d32 s1 t -> reachable scanf_d32 s t.
Proof.
  intros Hstep Hr. induction Hr as [|t t' r' _ IH Hstep'].
  - eapply reachable_step; [apply reachable_init|done].
  - by eapply reachable_step.
Qed.

Lemma run_loop_spec (fuel : nat) (steps : Z) : forall (s : cpu) (performed : Z),
  wf s -> 2 <= capacity s ->
  (forall t, reachable scanf_d32 s t -> ~ div_overflows t) ->
  steps - performed <= Z.of_nat fuel ->
  exists s' k,
    run_loop scanf_d32 fuel steps s performed = Some (s', performed + Z.of_nat k) /\
    performs scanf_d32 s k s' /\
    wf s' /\
    (k = O \/ performed + Z.of_nat k <= steps) /\
    (status s' ≠ CPU_OK \/ steps <= performed + Z.of_nat k).
Proof.
  induction fuel as [|fuel IH]; intros s performed Hwf Hcap Hdiv Hfuel.
  - exists s, O. simpl.
    destruct (decide (status s = CPU_OK)) as [Hok|Hok].
    + rewrite (bool_decide_eq_false_2 (performed < steps)) by lia.
      rewrite andb_false_r, Z.add_0_r.
      split_and!; [done|constructor|done|by left|right; lia].
    + rewrite (bool_decide_eq_false_2 (status s = CPU_OK)) by done. simpl.
      rewrite Z.add_0_r. split_and!; [done|constructor|done|by left|by left].
  - cbn [run_loop].
    destruct (decide (status s = CPU_OK)) as [Hok|Hok];
      [destruct (decide (performed < steps)) as [Hlt|Hlt]|].
    + rewrite !bool_decide_eq_true_2 by done. cbn [andb].
      destruct (cpu_step_total scanf_d32 s Hwf Hcap) as [[s1 r] Hstep].
      { apply Hdiv, reachable_init. }
      rewrite Hstep. cbn [mbind option_bind].
      destruct (IH s1 (performed + 1)) as (s' & k & Hrun & Hper & Hwf' & Hle & Hstop).
      { by eapply cpu_step_wf. }
      { by erewrite cpu_step_capacity. }
      { intros t Ht. eapply Hdiv, reachable_after_step; done. }
      { lia. }
      exists s', (S k). rewrite Hrun.
      split_and!; [f_equal; f_equal; lia|by econstructor|done|right; lia|].
      destruct Hstop; [by left|right; lia].
    + exists s, O. rewrite (bool_decide_eq_false_2 (performed < steps)) by done.
      rewrite andb_false_r, Z.add_0_r.
      split_and!; [done|constructor|done|by left|right; lia].
    + exists s, O. rewrite (bool_decide_eq_false_2 (status s = CPU_OK)) by done.
      simpl. rewrite Z.add_0_r.
      split_and!; [done|constructor|done|by left|by left].
Qed.

(** The loop of [cpu_run] never runs out of fuel. *)
Lemma run_loop_fuel (steps : Z) (s : cpu) :
  wf s -> 2 <= capacity s ->
  (forall t, reachable scanf_d32 s t -> ~ div_overflows t) ->
  is_Some (run_loop scanf_d32 (Z.to_nat steps) steps s 0).
Proof.
  intros Hwf Hcap Hdiv.
  destruct (run_loop_spec (Z.to_nat steps) steps s 0 Hwf Hcap Hdiv)
    as (s' & k & -> & _); [lia|eauto].
Qed.

Lemma run_loop_inv (fuel : nat) (steps : Z) : forall (s : cpu) (performed : Z) s' ret,
  run_loop scanf_d32 fuel steps s performed = Some (s', ret) ->
  exists k : nat,
    ret = performed + Z.of_nat k /\
    performs scanf_d32 s k s' /\
    (k = O \/ performed + Z.of_nat k <= steps) /\
    (status s' ≠ CPU_OK \/ steps <= performed + Z.of_nat k).
Proof.
  induction fuel as [|fuel IH]; intros s performed s' ret H.
  - simpl in H.
    destruct (decide (status s = CPU_OK)) as [Hok|Hok];
      [destruct (decide (performed < steps)) as [Hlt|Hlt]|].
    + by rewrite !bool_decide_eq_true_2 in H by done.
    + rewrite (bool_decide_eq_false_2 (performed < steps)) in H by done.
      rewrite andb_false_r in H. injection H as <- <-. exists O.
      split_and!; [lia|constructor|by left|right; lia].
    + rewrite (bool_decide_eq_false_2 (status s = CPU_OK)) in H by done.
      injection H as <- <-. exists O.
      split_and!; [lia|constructor|by left|by left].
  - cbn [run_loop] in H.
    destruct (decide (status s = CPU_OK)) as [Hok|Hok];
      [destruct (decide (performed < steps)) as [Hlt|Hlt]|].
    + rewrite !bool_decide_eq_true_2 in H by done. cbn [andb] in H.
      destruct (cpu_step scanf_d32 s) as [[s1 r]|] eqn:Hstep; [|done].
      cbn [mbind option_bind] in H.
      apply IH in H as (k & -> & Hper & Hle & Hstop).
      exists (S k). split_and!; [lia|by econstructor|right; lia|].
      destruct Hstop; [by left|right; lia].
    + rewrite (bool_decide_eq_false_2 (performed < steps)) in H by done.
      rewrite andb_false_r in H. injection H as <- <-. exists O.
      split_and!; [lia|constructor|by left|right; lia].
    + rewrite (bool_decide_eq_false_2 (status s = CPU_OK)) in H by done.
      injection H as <- <-. exists O.
      split_and!; [lia|constructor|by left|by left].
Qed.


End Driver.

(** ** Single instructions *)

Lemma quot_int32 a v :
  is_int32 a -> is_int32 v -> v ≠ 0 -> ~ (a = INT32_MIN /\ v = -1) ->
  is_int32 (a ÷ v).
Proof.
  unfold is_int32, INT32_MIN, INT32_MAX. intros Ha Hv Hv0 Hov.
  destruct (decide (v = -1)) as [->|Hm1].
  { pose proof (Z.quot_opp_r a 1 ltac:(lia)) as Hq.
    rewrite Z.quot_1_r in Hq. change (- (1)) with (-1) in Hq. lia. }
  destruct (decide (v = 1)) as [->|H1]; [rewrite Z.quot_1_r; lia|].
  assert (Z.abs (a ÷ v) <= Z.abs a `div` 2) as Hq.
  { rewrite <- Z.quot_abs by done. rewrite Z.quot_div_nonneg by lia.
    apply Z.div_le_lower_bound; [lia|].
    pose proof (Z.mul_div_le (Z.abs a) (Z.abs v) ltac:(lia)).
    assert (0 <= Z.abs a `div` Z.abs v) by (apply Z.div_pos; lia). nia. }
  assert (Z.abs a `div` 2 <= 2 ^ 30) by (apply Z.div_le_upper_bound; lia).
  lia.
Qed.

Section Instructions.

Variable scanf_d32 : list byte -> scan_result * list byte.

Lemma next_cell_eval s v :
  mem_read (memory s) (wrap32 (instruction_index s + 1)) = Some v ->
  next_cell s = Some (v, advance s).
Proof. intros H. unfold next_cell. simpl. by rewrite H. Qed.

Lemma reg_is_valid_eval s reg : 0 <= reg <= 3 -> reg_is_valid s reg = (true, s).
Proof.
  intros H. unfold reg_is_valid, REGISTER_A, REGISTER_D.
  by rewrite !bool_decide_eq_true_2 by lia.
Qed.

Lemma wf_next_index s :
  wf s -> in_code s -> wrap32 (instruction_index s + 1) = instruction_index s + 1.
Proof.
  intros Hwf Hip. wf_open Hwf. unfold in_code in Hip.
  apply wrap32_id. int32_bounds. lia.
Qed.

(** The index after a one-operand instruction whose operand cell is in the
    buffer. *)
Lemma wf_index_after_operand s v :
  wf s -> in_code s ->
  mem_read (memory s) (instruction_index s + 1) = Some v ->
  wrap32 (wrap32 (instruction_index s + 1) + 1) = instruction_index s + 2.
Proof.
  intros Hwf Hip Hv%mem_read_Some. rewrite wf_next_index by done.
  wf_open Hwf. unfold in_code in Hip.
  rewrite wrap32_id; [lia|]. int32_bounds. lia.
Qed.

(** Evaluate a step up to the validated register operand. *)
Ltac enter_handler Hwf Hip Hok Hop Hr Hreg :=
  erewrite cpu_step_dispatch by (first [done | lia | reflexivity]);
  match goal with
  | |- context [mbind _ (in_ _ _)] => unfold in_
  | |- context [mbind _ (?h _)] => unfold h
  end;
  rewrite (next_cell_eval _ _ ltac:(rewrite wf_next_index by done; exact Hr));
  cbn [mbind option_bind];
  rewrite reg_is_valid_eval by exact Hreg; cbn [negb].


(** *** The stack *)

Lemma push_step_full (s : cpu) (r : Z) :
  wf s -> status s = CPU_OK -> in_code s ->
  mem_read (memory s) (instruction_index s) = Some 17 ->
  mem_read (memory s) (instruction_index s + 1) = Some r ->
  0 <= r <= 3 ->
  stack_size s = capacity s ->
  cpu_step scanf_d32 s =
    Some (set_status (advance s) CPU_INVALID_STACK_OPERATION, 0).
Proof.
  intros Hwf Hok Hip Hop Hr Hreg Hfull.
  enter_handler Hwf Hip Hok Hop Hr Hreg.
  unfold capacity in Hfull. wf_open Hwf. rewrite Hsb in Hfull.
  change (stack_bottom (advance s)) with (stack_bottom s). rewrite Hsb.
  cbn [mbind option_bind].
  by rewrite bool_decide_eq_true_2 by done.
Qed.

Lemma pop_step_empty (s : cpu) (r : Z) :
  wf s -> status s = CPU_OK -> in_code s ->
  mem_read (memory s) (instruction_index s) = Some 18 ->
  mem_read (memory s) (instruction_index s + 1) = Some r ->
  0 <= r <= 3 ->
  stack_size s = 0 ->
  cpu_step scanf_d32 s =
    Some (set_status (advance s) CPU_INVALID_STACK_OPERATION, 0).
Proof.
  intros Hwf Hok Hip Hop Hr Hreg Hempty.
  enter_handler Hwf Hip Hok Hop Hr Hreg.
  by rewrite bool_decide_eq_true_2 by (cbn; lia).
Qed.

(** C7.  With a valid register operand, [push] on a full stack and [pop] on
    an empty one set [CPU_INVALID_STACK_OPERATION], return 0 and leave
    [stack_size], every memory cell and every register unchanged. *)
Theorem stack_limit_step (s : cpu) (op r : Z) :
  wf s -> status s = CPU_OK -> in_code s ->
  mem_read (memory s) (instruction_index s) = Some op ->
  mem_read (memory s) (instruction_index s + 1) = Some r ->
  0 <= r <= 3 ->
  (op = 17 /\ stack_size s = capacity s) \/ (op = 18 /\ stack_size s = 0) ->
  exists s',
    cpu_step scanf_d32 s = Some (s', 0) /\
    status s' = CPU_INVALID_STACK_OPERATION /\
    stack_size s' = stack_size s /\
    memory s' = memory s /\
    registers s' = registers s.
Proof.
  intros Hwf Hok Hip Hop Hr Hreg [[-> Hfull] | [-> Hempty]].
  - rewrite (push_step_full s r) by done. eexists. by split_and!.
  - rewrite (pop_step_empty s r) by done. eexists. by split_and!.
Qed.

Lemma push_step_ok (s : cpu) (r v : Z) :
  wf s -> status s = CPU_OK -> in_code s ->
  mem_read (memory s) (instruction_index s) = Some 17 ->
  mem_read (memory s) (instruction_index s + 1) = Some r ->
  0 <= r <= 3 ->
  reg_read s r = Some v ->
  stack_size s < capacity s ->
  exists s1 sb,
    cpu_step scanf_d32 s = Some (s1, 1) /\
    status s1 = CPU_OK /\
    stack_bottom s1 = Some sb /\
    stack_size s1 = stack_size s + 1 /\
    mem_read (memory s1) (sb - stack_size s) = Some v /\
    (forall i, i ≠ sb - stack_size s -> mem_read (memory s1) i = mem_read (memory s) i) /\
    registers s1 = registers s /\
    instruction_index s1 = instruction_index s + 2.
Proof.
  intros Hwf Hok Hip Hop Hr Hreg Hv Hroom.
  enter_handler Hwf Hip Hok Hop Hr Hreg.
  pose proof (wf_index_after_operand s r Hwf Hip Hr) as Hnext.
  unfold capacity in Hroom. wf_open Hwf. rewrite Hsb in Hroom.
  change (stack_bottom (advance s)) with (stack_bottom s). rewrite Hsb.
  cbn [mbind option_bind].
  rewrite bool_decide_eq_false_2 by (cbn; lia).
  change (reg_read (advance s) r) with (reg_read s r). rewrite Hv.
  cbn [mbind option_bind].
  destruct (mem_write_is_Some (memory s) (sb - stack_size s) v) as [m Hm]; [lia|].
  unfold store_cell. change (memory (advance s)) with (memory s).
  change (stack_size (advance s)) with (stack_size s).
  rewrite Hm. cbn [mbind option_bind].
  rewrite bool_decide_eq_false_2 by (cbn; congruence).
  eexists _, sb. split; [reflexivity|]. cbn.
  split_and!; try done.
  - apply wrap32_id. int32_bounds. lia.
  - by eapply mem_read_write_eq.
  - intros i Hi. by eapply mem_read_write_ne.
Qed.

Lemma pop_step_ok (s : cpu) (r v sb : Z) :
  wf s -> status s = CPU_OK -> in_code s ->
  mem_read (memory s) (instruction_index s) = Some 18 ->
  mem_read (memory s) (instruction_index s + 1) = Some r ->
  0 <= r <= 3 ->
  0 < stack_size s ->
  stack_bottom s = Some sb ->
  mem_read (memory s) (sb - (stack_size s - 1)) = Some v ->
  exists s2,
    cpu_step scanf_d32 s = Some (s2, 1) /\
    status s2 = CPU_OK /\
    reg_read s2 r = Some v /\
    stack_size s2 = stack_size s - 1 /\
    mem_read (memory s2) (sb - (stack_size s - 1)) = Some 0 /\
    instruction_index s2 = instruction_index s + 2.
Proof.
  intros Hwf Hok Hip Hop Hr Hreg Hpos Hbot Hv.
  enter_handler Hwf Hip Hok Hop Hr Hreg.
  pose proof (wf_index_after_operand s r Hwf Hip Hr) as Hnext.
  wf_open Hwf. rewrite Hbot in Hsb. injection Hsb as <-.
  rewrite bool_decide_eq_false_2 by (cbn; lia). cbn [stack_bottom stack_size
    set_stack_size advance set_instruction_index memory].
  rewrite Hbot. cbn [mbind option_bind].
  rewrite (wrap32_id (stack_size s - 1)) by (int32_bounds; lia).
  rewrite (wrap32_id (sb - (stack_size s - 1))) by (int32_bounds; lia).
  rewrite Hv. cbn [mbind option_bind].
  destruct (rf_set_is_Some (registers s) r v) as [rf Hrf]; [done|].
  unfold reg_write.
  change (registers (set_stack_size (advance s) (stack_size s - 1)))
    with (registers s).
  rewrite Hrf. cbn [mbind option_bind].
  destruct (mem_write_is_Some (memory s) (sb - (stack_size s - 1)) 0) as [m Hm];
    [lia|].
  unfold store_cell.
  change (memory (set_registers (set_stack_size (advance s) (stack_size s - 1)) rf))
    with (memory s).
  rewrite Hm.
  cbn [mbind option_bind].
  rewrite bool_decide_eq_false_2 by (cbn; congruence).
  eexists. split; [reflexivity|]. cbn.
  split_and!; try done.
  - by eapply rf_get_set_eq.
  - by eapply mem_read_write_eq.
Qed.

(** C8.  [push r] on a stack with room, followed in the code region by a
    [pop] with a valid register operand [r2]: both steps succeed, the second one
    starting where the first has left the index; afterwards [r2] holds the
    value [r] held before the push, [stack_size] is what it was before the
    push, and the index is behind the [pop]. *)
Theorem push_then_pop (s : cpu) (r v r2 : Z) :
  wf s -> status s = CPU_OK -> in_code s ->
  mem_read (memory s) (instruction_index s) = Some 17 ->
  mem_read (memory s) (instruction_index s + 1) = Some r ->
  0 <= r <= 3 ->
  reg_read s r = Some v ->
  stack_size s < capacity s ->
  instruction_index s + 3 < stack_top s ->
  mem_read (memory s) (instruction_index s + 2) = Some 18 ->
  mem_read (memory s) (instruction_index s + 3) = Some r2 ->
  0 <= r2 <= 3 ->
  exists s1 s2,
    cpu_step scanf_d32 s = Some (s1, 1) /\
    stack_size s1 = stack_size s + 1 /\
    instruction_index s1 = instruction_index s + 2 /\
    cpu_step scanf_d32 s1 = Some (s2, 1) /\
    status s2 = CPU_OK /\
    reg_read s2 r2 = Some v /\
    stack_size s2 = stack_size s /\
    instruction_index s2 = instruction_index s + 4.
Proof.
  intros Hwf Hok Hip Hop Hr Hreg Hv Hroom Hip2 Hop2 Hr2 Hreg2.
  destruct (push_step_ok s r v)
    as (s1 & sb & Hstep & Hok1 & Hsb1 & Hss1 & Hcell & Hrest & _ & Hidx1);
    try done.
  assert (wf s1) as Hwf1 by (by eapply cpu_step_wf).
  destruct (cpu_step_layout scanf_d32 _ _ _ Hstep) as (Hb & Htop1 & _).
  assert (stack_bottom s = Some sb) as Hsbs by congruence.
  assert (stack_size s <= sb - stack_top s) as Hfree.
  { unfold capacity in Hroom. rewrite Hsbs in Hroom. lia. }
  pose proof (mem_read_Some _ _ _ Hr2) as Hlen2.
  destruct (pop_step_ok s1 r2 v sb) as (s2 & Hstep2 & Hok2 & Hval & Hss2 & _ & Hidx2).
  - done.
  - done.
  - unfold in_code in *. lia.
  - rewrite Hidx1, Hrest by (unfold in_code in Hip; lia). done.
  - rewrite Hidx1, Hrest by (unfold in_code in Hip; lia).
    by replace (instruction_index s + 2 + 1) with (instruction_index s + 3) by lia.
  - done.
  - wf_open Hwf. lia.
  - done.
  - rewrite Hss1. by replace (stack_size s + 1 - 1) with (stack_size s) by lia.
  - exists s1, s2. split_and!; [done..|lia|lia].
Qed.

(** *** End of input *)

Lemma handle_eof_spec (s : cpu) (r : Z) :
  0 <= r <= 3 ->
  exists s',
    handle_eof s r = Some s' /\
    reg_read s' r = Some (-1) /\
    (r ≠ REGISTER_C -> reg_read s' REGISTER_C = Some 0) /\
    (forall r', r' ≠ r -> r' ≠ REGISTER_C -> reg_read s' r' = reg_read s r') /\
    status s' = status s /\
    instruction_index s' = wrap32 (instruction_index s + 1) /\
    memory s' = memory s /\
    stack_size s' = stack_size s.
Proof.
  intros Hreg. unfold handle_eof, reg_write.
  destruct (rf_set_is_Some (registers s) REGISTER_C 0) as [rf1 Hrf1]; [done|].
  rewrite Hrf1. cbn [mbind option_bind registers set_registers].
  destruct (rf_set_is_Some rf1 r (-1)) as [rf2 Hrf2]; [done|].
  rewrite Hrf2. cbn [mbind option_bind].
  eexists. split; [reflexivity|]. unfold reg_read. cbn.
  split_and!; try done.
  - by eapply rf_get_set_eq.
  - intros Hne. rewrite (rf_get_set_ne rf1 r REGISTER_C (-1) rf2) by done.
    by eapply rf_get_set_eq.
  - intros r' Hr1 Hr2.
    rewrite (rf_get_set_ne rf1 r r' (-1) rf2) by congruence.
    by rewrite (rf_get_set_ne (registers s) REGISTER_C r' 0 rf1) by congruence.
Qed.

(** C5, as amended.  [in r] and [get r] with a valid register operand, when
    the input is at its end: status stays [CPU_OK], the step returns 1, the
    instruction index has passed the opcode and the operand, [r] holds -1,
    and C holds 0 unless [r] is C itself, in which case C holds -1.  The
    other registers, the memory and [stack_size] are unchanged. *)
Theorem end_of_input_step (s : cpu) (op r : Z) :
  wf s -> status s = CPU_OK -> in_code s ->
  mem_read (memory s) (instruction_index s) = Some op ->
  mem_read (memory s) (instruction_index s + 1) = Some r ->
  0 <= r <= 3 ->
  (op = 12 /\ (scanf_d32 (stdin s)).1 = ScanEOF) \/ (op = 13 /\ stdin s = []) ->
  exists s',
    cpu_step scanf_d32 s = Some (s', 1) /\
    status s' = CPU_OK /\
    instruction_index s' = instruction_index s + 2 /\
    reg_read s' r = Some (-1) /\
    (r ≠ REGISTER_C -> reg_read s' REGISTER_C = Some 0) /\
    (r = REGISTER_C -> reg_read s' REGISTER_C = Some (-1)) /\
    (forall r', r' ≠ r -> r' ≠ REGISTER_C -> reg_read s' r' = reg_read s r') /\
    memory s' = memory s /\
    stack_size s' = stack_size s.
Proof.
  intros Hwf Hok Hip Hop Hr Hreg Heof.
  pose proof (wf_index_after_operand s r Hwf Hip Hr) as Hnext.
  assert (exists s0, status s0 = CPU_OK /\ registers s0 = registers s /\
            instruction_index s0 = wrap32 (instruction_index s + 1) /\
            memory s0 = memory s /\ stack_size s0 = stack_size s /\
            cpu_step scanf_d32 s =
              s' ← handle_eof s0 r;
              Some (s', if bool_decide (status s' ≠ CPU_OK) then 0 else 1))
    as (s0 & Hok0 & Hregs0 & Hip0 & Hmem0 & Hss0 & ->).
  { destruct Heof as [[-> Hscan] | [-> Hin]].
    - enter_handler Hwf Hip Hok Hop Hr Hreg.
      change (stdin (advance s)) with (stdin s).
      destruct (scanf_d32 (stdin s)) as [res rest]. simpl in Hscan. subst res.
      exists (set_stdin (advance s) rest). by split_and!.
    - enter_handler Hwf Hip Hok Hop Hr Hreg.
      unfold getchar. change (stdin (advance s)) with (stdin s). rewrite Hin.
      rewrite bool_decide_eq_true_2 by done.
      exists (advance s). by split_and!. }
  destruct (handle_eof_spec s0 r Hreg)
    as (s' & -> & Hr1 & Hc & Hothers & Hst & Hidx & Hmem & Hss).
  cbn [mbind option_bind].
  rewrite bool_decide_eq_false_2 by (rewrite Hst, Hok0; by intros []).
  exists s'. split_and!; try done; try congruence.
  - intros r' H1 H2. rewrite Hothers by done. unfold reg_read. by rewrite Hregs0.
Qed.

End Instructions.

(** ** Failing instructions *)

Lemma wrap32_succ z :
  0 <= z <= INT32_MAX -> 0 <= wrap32 (z + 1) -> wrap32 (z + 1) = z + 1.
Proof.
  intros Hz Hw. destruct (decide (z + 1 <= INT32_MAX)) as [Hle|Hgt].
  - apply wrap32_id. int32_bounds. lia.
  - assert (z = INT32_MAX) as -> by lia.
    assert (wrap32 (INT32_MAX + 1) = - 2 ^ 31) as E by reflexivity. lia.
Qed.

Section Failures.

Variable scanf_d32 : list byte -> scan_result * list byte.

(** C10, as amended.  A step that runs the handler of a valid opcode and
    ends with a status other than [CPU_OK] returns 0 and leaves the
    registers, every memory cell, [stack_size], the stack boundaries and the
    output as they were: only the status and the instruction index differ.
    In a well-formed state the index has moved by exactly the number of
    operand cells the handler had read: it rests on the last cell read, not
    behind it. *)
Theorem failed_step_frame (s s' : cpu) (r op : Z) :
  status s = CPU_OK -> in_code s ->
  mem_read (memory s) (instruction_index s) = Some op -> 0 <= op <= 18 ->
  cpu_step scanf_d32 s = Some (s', r) ->
  status s' ≠ CPU_OK ->
  r = 0 /\
  registers s' = registers s /\
  memory s' = memory s /\
  stack_size s' = stack_size s /\
  stack_bottom s' = stack_bottom s /\
  stack_top s' = stack_top s /\
  stdout s' = stdout s /\
  (wf s ->
   instruction_index s' = instruction_index s + operand_cells_read op (status s')).
Proof.
  intros Hok Hip Hop Hrange Hstep Hst.
  pose proof (cpu_step_layout _ _ _ _ Hstep) as (Hb & Ht & _).
  apply cpu_step_inv in Hstep as [| | |op' h _ _ Hop' Hrange' Hh Hs ->];
    [done|done|congruence|].
  assert (op' = op) as -> by congruence.
  destruct (handler_failure_frame scanf_d32 op h s s')
    as (Hregs & Hmem & Hss & Hout & Hidx); try done.
  rewrite bool_decide_eq_true_2 by done.
  split_and!; try done.
  intros Hwf. pose proof (wf_next_index s Hwf Hip) as Hn1.
  assert (0 <= operand_cells_read op (status s') <= 2) as Hk.
  { unfold operand_cells_read. repeat case_bool_decide; lia. }
  destruct (operand_cells_read op (status s')) as [|k|k]; [lia| |lia].
  destruct k as [[]|[]|]; try lia.
  destruct Hidx as (-> & _ & Hread). rewrite Hn1 in *.
  destruct Hread as [v Hv%mem_read_Some].
  rewrite wrap32_succ; [lia| |lia]. wf_open Hwf. unfold in_code in Hip. lia.
Qed.

(** ** Reset *)

Lemma cpu_reset_eval (s : cpu) (sb : Z) :
  stack_bottom s = Some sb ->
  cpu_reset s = Some (set_stack_bottom (cpu_clear s) None).
Proof.
  intros Hsb. unfold cpu_reset.
  change (stack_bottom (cpu_clear s)) with (stack_bottom s). rewrite Hsb.
  reflexivity.
Qed.

(** [cpu_reset] clears the registers, the status, the instruction index and
    [stack_size], stores [NULL] in [stack_bottom], and writes to no memory
    cell: [cpu_clear] has set [stack_size] to 0 before [memset] uses it as
    the length. *)
Lemma cpu_reset_spec (s s' : cpu) :
  cpu_reset s = Some s' ->
  registers s' = mkRegs 0 0 0 0 /\ status s' = CPU_OK /\
  instruction_index s' = 0 /\ stack_size s' = 0 /\
  stack_bottom s' = None /\ memory s' = memory s.
Proof.
  destruct (stack_bottom s) as [sb|] eqn:Hsb.
  - rewrite (cpu_reset_eval s sb Hsb). intros [= <-]. by split_and!.
  - unfold cpu_reset. change (stack_bottom (cpu_clear s)) with (stack_bottom s).
    by rewrite Hsb.
Qed.

End Failures.

(** ** The loader *)

Lemma wrap32_add_l a b : wrap32 (wrap32 a + b) = wrap32 (a + b).
Proof.
  unfold wrap32. f_equal.
  replace ((a + 2 ^ 31) `mod` 2 ^ 32 - 2 ^ 31 + b + 2 ^ 31)
    with ((a + 2 ^ 31) `mod` 2 ^ 32 + b) by lia.
  rewrite Zplus_mod_idemp_l. f_equal. lia.
Qed.

Lemma wrap32_rem_4 n : n `mod` 4 ≠ 0 -> Z.rem (wrap32 n) 4 ≠ 0.
Proof.
  intros Hn Hrem. apply Hn.
  apply Z.rem_divide in Hrem; [|lia]. apply Z.mod_divide; [lia|].
  destruct Hrem as [q Hq]. unfold wrap32 in Hq.
  pose proof (Z.div_mod (n + 2 ^ 31) (2 ^ 32) ltac:(lia)) as Hdm.
  exists (q + 2 ^ 30 * ((n + 2 ^ 31) `div` 2 ^ 32)). lia.
Qed.

Section LoaderFacts.

Variable alloc_ok : Z -> bool.
Variable cell_of_bytes : byte -> byte -> byte -> byte -> Z.

Lemma read_program_size (program : list byte) :
  forall buf size capacity buf' size' capacity',
    read_program alloc_ok program buf size capacity = Some (buf', size', capacity') ->
    size' = wrap32 (size + Z.of_nat (length program)) \/
    (program = [] /\ size' = size).
Proof.
  induction program as [|c rest IH]; intros buf size capacity buf' size' capacity' H.
  - right. simpl in H. by simplify_eq.
  - left. cbn [read_program] in H.
    match type of H with mbind _ ?m = _ => destruct m as [capacity1|]; [|done] end.
    cbn [mbind option_bind] in H.
    apply IH in H as [-> | [-> ->]].
    + rewrite wrap32_add_l. f_equal. rewrite length_cons. lia.
    + reflexivity.
Qed.

(** C9.  A byte source whose length is not a multiple of 4 makes the loader
    return [NULL], whatever the allocator and the requested stack capacity
    are, and [main] then creates no machine state. *)
Theorem misaligned_program_is_rejected (program : list byte)
    (stack_capacity : Z) (input : list byte) :
  Z.of_nat (length program) `mod` 4 ≠ 0 ->
  cpu_create_memory alloc_ok cell_of_bytes program stack_capacity = None /\
  load_machine alloc_ok cell_of_bytes program stack_capacity input = None.
Proof.
  intros Hlen.
  assert (cpu_create_memory alloc_ok cell_of_bytes program stack_capacity = None)
    as Hnone; [|split; [done|unfold load_machine; by rewrite Hnone]].
  unfold cpu_create_memory.
  destruct (alloc_ok (to_size_t BLOCK_SIZE)); [|done]. cbn [negb].
  destruct (read_program alloc_ok program [] 0 BLOCK_SIZE) as [[[buf size] capacity]|]
    eqn:Hread; [|done].
  cbn [mbind option_bind].
  apply read_program_size in Hread as [-> | [-> _]].
  - rewrite bool_decide_eq_true_2; [done|]. unfold CELL_SIZE.
    apply wrap32_rem_4. by rewrite Z.add_0_l.
  - done.
Qed.

End LoaderFacts.

(** ** The loader builds well-formed machines *)

Section LoaderBuilds.

Variable alloc_ok : Z -> bool.
Variable cell_of_bytes : byte -> byte -> byte -> byte -> Z.

(** The host reads four bytes as a 32-bit value. *)
Hypothesis cell_int32 : forall b0 b1 b2 b3, is_int32 (cell_of_bytes b0 b1 b2 b3).

Lemma cells_of_bytes_spec (n : nat) : forall bs : list byte,
  length bs = (4 * n)%nat ->
  length (cells_of_bytes cell_of_bytes bs) = n /\
  Forall is_int32 (cells_of_bytes cell_of_bytes bs).
Proof.
  induction n as [|n IH]; intros bs Hlen.
  - destruct bs; [|done]. by split.
  - destruct bs as [|b0 [|b1 [|b2 [|b3 rest]]]]; simpl in Hlen; try lia.
    destruct (IH rest) as [Hl Hf]; [lia|].
    cbn [cells_of_bytes]. split; [simpl; lia|]. constructor; [apply cell_int32|done].
Qed.

(** The [fgetc] loop while no [int32_t] overflows. *)
Lemma read_program_spec (program : list byte) :
  forall buf size capacity buf' size' capacity',
    read_program alloc_ok program buf size capacity = Some (buf', size', capacity') ->
    0 <= size <= capacity ->
    Z.max capacity (size + Z.of_nat (length program) + 4095) <= INT32_MAX ->
    (BLOCK_SIZE | capacity) ->
    buf' = buf ++ program /\
    size' = size + Z.of_nat (length program) /\
    size' <= capacity' /\
    capacity' <= Z.max capacity (size + Z.of_nat (length program) + 4095) /\
    (BLOCK_SIZE | capacity').
Proof.
  induction program as [|c rest IH];
    intros buf size capacity buf' size' capacity' H Hsize Hmax Hdiv.
  - simpl in H. simplify_eq. rewrite app_nil_r. simpl. split_and!; try done; lia.
  - cbn [read_program] in H. rewrite length_cons in *.
    rewrite (wrap32_id (size + 1)) in H by (int32_bounds; lia).
    destruct (decide (size + 1 > capacity)) as [Hgrow|Hfit].
    + rewrite bool_decide_eq_true_2 in H by done.
      rewrite (wrap32_id (capacity + BLOCK_SIZE)) in H
        by (int32_bounds; unfold BLOCK_SIZE; lia).
      destruct (alloc_ok _); [|done]. cbn [mbind option_bind] in H.
      apply IH in H as (-> & -> & Hle & Hcap & Hdiv').
      * rewrite <- app_assoc. split_and!; try done; unfold BLOCK_SIZE in *; lia.
      * unfold BLOCK_SIZE. lia.
      * unfold BLOCK_SIZE. lia.
      * by apply Z.divide_add_r.
    + rewrite bool_decide_eq_false_2 in H by done. cbn [mbind option_bind] in H.
      apply IH in H as (-> & -> & Hle & Hcap & Hdiv'); [|lia|lia|done].
      rewrite <- app_assoc. split_and!; try done; lia.
Qed.

Lemma cells_of_bytes_length (n : nat) : forall bs : list byte,
  length bs = (4 * n)%nat -> length (cells_of_bytes cell_of_bytes bs) = n.
Proof.
  induction n as [|n IH]; intros bs Hlen.
  - by destruct bs.
  - destruct bs as [|b0 [|b1 [|b2 [|b3 rest]]]]; simpl in Hlen; try lia.
    cbn [cells_of_bytes length]. rewrite IH; lia.
Qed.

(** The [fgetc] loop never shrinks the buffer. *)
Lemma read_program_capacity (program : list byte) :
  forall buf size capacity buf' size' capacity',
    read_program alloc_ok program buf size capacity = Some (buf', size', capacity') ->
    0 <= size <= capacity ->
    Z.max capacity (size + Z.of_nat (length program) + 4095) <= INT32_MAX ->
    capacity <= capacity'.
Proof.
  induction program as [|c rest IH];
    intros buf size capacity buf' size' capacity' H Hsize Hmax.
  - simpl in H. simplify_eq. lia.
  - cbn [read_program] in H. rewrite length_cons in *.
    rewrite (wrap32_id (size + 1)) in H by (int32_bounds; lia).
    destruct (decide (size + 1 > capacity)) as [Hgrow|Hfit].
    + rewrite bool_decide_eq_true_2 in H by done.
      rewrite (wrap32_id (capacity + BLOCK_SIZE)) in H
        by (int32_bounds; unfold BLOCK_SIZE; lia).
      destruct (alloc_ok _); [|done]. cbn [mbind option_bind] in H.
      apply IH in H; unfold BLOCK_SIZE in *; lia.
    + rewrite bool_decide_eq_false_2 in H by done. cbn [mbind option_bind] in H.
      apply IH in H; lia.
Qed.

(** The buffer the loader returns: [bytes] is its size after the second
    [realloc], a whole number of blocks with room for the program and the
    stack, and less than one block more than that. *)
Lemma cpu_create_memory_bytes (program : list byte) (stack_capacity : Z)
    (mem : list Z) (sb : Z) :
  0 <= stack_capacity ->
  Z.of_nat (length program) + 4 * stack_capacity + 2 * BLOCK_SIZE <= INT32_MAX ->
  cpu_create_memory alloc_ok cell_of_bytes program stack_capacity = Some (mem, sb) ->
  exists q bytes,
    Z.of_nat (length program) = 4 * q /\
    (4096 | bytes) /\ 4096 <= bytes /\
    4 * q + 4 * stack_capacity <= bytes /\
    bytes <= Z.max 4096 (4 * q + 4 * stack_capacity + 4095) /\
    mem = cells_of_bytes cell_of_bytes program ++
          replicate (Z.to_nat (bytes `div` 4 - q)) 0 /\
    sb = bytes `div` 4 - 1.
Proof.
  intros Hcap Hfit Hmem.
  unfold cpu_create_memory in Hmem.
  destruct (alloc_ok (to_size_t BLOCK_SIZE)); [|done]. cbn [negb] in Hmem.
  destruct (read_program alloc_ok program [] 0 BLOCK_SIZE)
    as [[[buf size] capacity0]|] eqn:Hread; [|done].
  cbn [mbind option_bind] in Hmem.
  pose proof Hread as Hmono.
  apply read_program_capacity in Hmono; [|unfold BLOCK_SIZE in *; lia..].
  apply read_program_spec in Hread as (-> & -> & Hle & Hcap0 & Hdiv0);
    [|unfold BLOCK_SIZE in *; try lia..]; [|exists 1; lia].
  rewrite app_nil_l, Z.add_0_l in *.
  set (size := Z.of_nat (length program)) in *.
  destruct (decide (Z.rem size CELL_SIZE = 0)) as [Hal|Hal];
    [|by rewrite bool_decide_eq_true_2 in Hmem].
  rewrite bool_decide_eq_false_2 in Hmem by (by intros []).
  unfold BLOCK_SIZE, CELL_SIZE in *.
  apply Z.rem_divide in Hal as [q Hq]; [|lia].
  pose proof Hdiv0 as [q0 Hq0].
  exists q.
  assert (forall bytes, 0 <= bytes -> bytes `quot` 4 - 1 - size `quot` 4 + 1
                                      = bytes `div` 4 - q) as Hcells.
  { intros bytes Hb. rewrite !Z.quot_div_nonneg by lia.
    replace (size `div` 4) with q; [lia|]. apply Z.div_unique_exact; lia. }
  rewrite (wrap32_id (capacity0 - size)) in Hmem by (int32_bounds; lia).
  unfold to_size_t in Hmem.
  rewrite (Z.mod_small (capacity0 - size)) in Hmem by lia.
  rewrite (Z.mod_small (stack_capacity * 4)) in Hmem by (int32_bounds; lia).
  destruct (decide (capacity0 - size < stack_capacity * 4)) as [Hsmall|Hbig].
  - rewrite bool_decide_eq_true_2 in Hmem by done.
    set (need := (stack_capacity - 1) * 4 - capacity0 + size + 4096) in *.
    rewrite (Z.mod_small need) in Hmem by (int32_bounds; lia).
    pose proof (Z.div_mod need 4096 ltac:(lia)) as Hdm.
    pose proof (Z.mod_pos_bound need 4096 ltac:(lia)) as Hmb.
    assert ((need `mod` 4096) `mod` 4 = 0) as Hm4.
    { rewrite Z.mod_mod_divide by (by exists 1024).
      apply Z.mod_divide; [lia|].
      exists (stack_capacity - 1 - 1024 * q0 + q + 1024). lia. }
    pose proof (Z.div_mod (need `mod` 4096) 4 ltac:(lia)) as Hdm4.
    assert (0 <= need `div` 4096) by (apply Z.div_pos; lia).
    rewrite (Z.mod_small (4096 * (need `div` 4096))) in Hmem
      by (int32_bounds; lia).
    rewrite (wrap32_id (capacity0 + 4096 * (need `div` 4096))) in Hmem
      by (int32_bounds; lia).
    destruct (alloc_ok _); [|done]. cbn [mbind option_bind] in Hmem.
    injection Hmem as <- <-.
    exists (capacity0 + 4096 * (need `div` 4096)).
    rewrite Hcells by lia. rewrite Z.quot_div_nonneg by lia.
    split_and!; try done; try lia.
    exists (q0 + need `div` 4096). lia.
  - rewrite bool_decide_eq_false_2 in Hmem by done.
    cbn [mbind option_bind] in Hmem. injection Hmem as <- <-.
    exists capacity0. rewrite Hcells by lia. rewrite Z.quot_div_nonneg by lia.
    split_and!; try done; lia.
Qed.

(** A program that fits: the machine [main] builds from it is well formed,
    has the requested stack capacity, and starts at index 0 with status
    [CPU_OK]. *)
Lemma load_machine_wf (program : list byte) (stack_capacity : Z)
    (input : list byte) (init : cpu) :
  0 <= stack_capacity ->
  Z.of_nat (length program) + 4 * stack_capacity + 2 * BLOCK_SIZE <= INT32_MAX ->
  load_machine alloc_ok cell_of_bytes program stack_capacity input = Some init ->
  wf init /\ capacity init = stack_capacity /\
  status init = CPU_OK /\ instruction_index init = 0 /\ stack_size init = 0.
Proof.
  intros Hcap Hfit Hload. unfold load_machine in Hload.
  destruct (cpu_create_memory _ _ _ _) as [[mem sb]|] eqn:Hmem; [|done].
  cbn [mbind option_bind] in Hload. injection Hload as <-.
  apply cpu_create_memory_bytes in Hmem
    as (q & bytes & Hq & [qb Hqb] & Hmin & Hroom & Hmax & -> & ->); [|done..].
  unfold BLOCK_SIZE in *.
  assert (length program = (4 * Z.to_nat q)%nat) as Hlen by lia.
  destruct (cells_of_bytes_spec (Z.to_nat q) program Hlen) as [Hcells Hint].
  assert (bytes `div` 4 = 1024 * qb) as -> by (symmetry; apply Z.div_unique_exact; lia).
  split_and!; try reflexivity.
  - exists (1024 * qb - 1). split; [reflexivity|]. unfold wf_at. cbn.
    rewrite length_app, length_replicate, Hcells.
    split_and!; try (int32_bounds; lia).
    + by split_and!.
    + apply Forall_app. split; [done|]. apply Forall_replicate. by split.
  - unfold capacity. cbn. lia.
Qed.

End LoaderBuilds.

Lemma cell_le_int32 b0 b1 b2 b3 : is_int32 (cell_le b0 b1 b2 b3).
Proof. apply wrap32_int32. Qed.

(** ** What every execution keeps *)

Section Invariants.

Variable scanf_d32 : list byte -> scan_result * list byte.

(** X1.  Every state reached from a well-formed one is well formed, with the
    same stack boundaries and buffer size: [stack_size] stays between 0 and
    the capacity, and the stack region stays inside the buffer. *)
Theorem reachable_keeps_invariant (init s : cpu) :
  wf init -> reachable scanf_d32 init s ->
  wf s /\
  0 <= stack_size s <= capacity init /\
  stack_bottom s = stack_bottom init /\
  stack_top s = stack_top init /\
  length (memory s) = length (memory init).
Proof.
  intros Hinit Hr.
  assert (wf s) as Hwf by (by eapply reachable_wf).
  assert (stack_bottom s = stack_bottom init /\ stack_top s = stack_top init /\
          length (memory s) = length (memory init)) as (Hb & Ht & Hl).
  { clear Hwf. induction Hr as [|s s' r _ IH Hstep]; [done|].
    destruct (cpu_step_layout _ _ _ _ Hstep) as (-> & -> & ->). exact IH. }
  split_and!; try done.
  - wf_open Hwf. lia.
  - wf_open Hwf. unfold capacity. rewrite <- Hb, <- Ht, Hsb. lia.
Qed.

Lemma cpu_step_div_overflows s :
  wf s -> div_overflows s -> cpu_step scanf_d32 s = None.
Proof.
  intros Hwf ((Hok & Hip & Hop) & r & Hr & Ha & Hv).
  pose proof (rf_get_Some _ _ _ Hv) as Hreg.
  erewrite cpu_step_dispatch by (first [done | lia | reflexivity]).
  unfold div_reg.
  rewrite (next_cell_eval s r) by (by rewrite wf_next_index).
  cbn [mbind option_bind]. rewrite (reg_is_valid_eval _ _ Hreg). cbn [negb].
  change (reg_read (advance s) r) with (reg_read s r). rewrite Hv.
  cbn [mbind option_bind]. rewrite bool_decide_eq_false_2 by done.
  change (reg_read (advance s) REGISTER_A) with (reg_read s REGISTER_A).
  rewrite Ha. cbn [mbind option_bind].
  by rewrite bool_decide_eq_true_2 by done.
Qed.

(** X2.  In every state reached from a well-formed one whose stack capacity
    is at least 2, a step stays inside the buffer and the register array
    and has a result, unless it is the division of [INT32_MIN] by -1, which
    has none; the result is 1 exactly when the step leaves status [CPU_OK]
    behind, 0 otherwise. *)
Theorem reachable_step_is_defined (init s : cpu) :
  wf init -> 2 <= capacity init -> reachable scanf_d32 init s ->
  (~ div_overflows s ->
   exists s' r,
     cpu_step scanf_d32 s = Some (s', r) /\
     (status s' = CPU_OK -> r = 1) /\
     (status s' ≠ CPU_OK -> r = 0)) /\
  (div_overflows s -> cpu_step scanf_d32 s = None).
Proof.
  intros Hinit Hcap Hr.
  assert (wf s) as Hwf by (by eapply reachable_wf).
  assert (2 <= capacity s) as Hcap' by (by erewrite reachable_capacity).
  split; [|by apply cpu_step_div_overflows].
  intros Hdiv.
  destruct (cpu_step_total scanf_d32 s Hwf Hcap' Hdiv) as [[s' r] Hstep].
  exists s', r. split; [done|].
  apply cpu_step_inv in Hstep as [Hst -> ->|? ? -> ->|? ? ? ? ? -> ->|? ? ? ? ? ? ? ? ->].
  - done.
  - done.
  - done.
  - case_bool_decide; done.
Qed.

(** What a handler does to the stack region: nothing, a store into a live
    cell, a push onto the next free cell, or a pop that zeroes the top cell. *)
Lemma handlers_stack_effect (h : cpu -> option cpu) s s' sb :
  h ∈ instructions scanf_d32 -> wf s -> stack_bottom s = Some sb ->
  h s = Some s' ->
  (memory s' = memory s /\ stack_size s' = stack_size s) \/
  (exists i v, mem_write (memory s) i v = Some (memory s') /\
     sb - stack_size s + 1 <= i <= sb /\ stack_size s' = stack_size s) \/
  (exists v, mem_write (memory s) (sb - stack_size s) v = Some (memory s') /\
     stack_size s < sb - stack_top s + 1 /\ stack_size s' = stack_size s + 1) \/
  (mem_write (memory s) (sb - stack_size s + 1) 0 = Some (memory s') /\
     0 < stack_size s /\ stack_size s' = stack_size s - 1).
Proof.
  intros Hin Hwf Hbot H. each_handler Hin.
  all: unfold in_ in H; unfold_handlers H.
  all: inv_handler H; try inv_target.
  all: wf_open Hwf; rewrite Hbot in Hsb; injection Hsb as <-.
  all: unfold reg_read in *; cbn in *;
    repeat match goal with
    | H1 : stack_bottom ?st = Some ?a, H2 : stack_bottom ?st = Some ?b |- _ =>
        rewrite H1 in H2; injection H2 as <-
    end.
  all: try (left; split; reflexivity).
  - right; left. eexists _, _. split_and!; [done|lia..|done].
  - right; right; left. unwrap32. eexists. split_and!; [done|lia..].
  - right; right; right. unwrap32.
    split_and!; [|lia..].
    match goal with
    | H : mem_write _ ?i _ = Some ?m |- mem_write _ ?j _ = Some ?m =>
        replace j with i by lia; exact H
    end.
Qed.

Lemma step_stack_effect s s' r sb :
  wf s -> stack_bottom s = Some sb -> cpu_step scanf_d32 s = Some (s', r) ->
  (memory s' = memory s /\ stack_size s' = stack_size s) \/
  (exists i v, mem_write (memory s) i v = Some (memory s') /\
     sb - stack_size s + 1 <= i <= sb /\ stack_size s' = stack_size s) \/
  (exists v, mem_write (memory s) (sb - stack_size s) v = Some (memory s') /\
     stack_size s < sb - stack_top s + 1 /\ stack_size s' = stack_size s + 1) \/
  (mem_write (memory s) (sb - stack_size s + 1) 0 = Some (memory s') /\
     0 < stack_size s /\ stack_size s' = stack_size s - 1).
Proof.
  intros Hwf Hbot [| | |op h ???? Hh Hs ?]%cpu_step_inv; subst; try by left.
  eapply handlers_stack_effect; [|done..]. by eapply list_elem_of_lookup_2.
Qed.

Lemma step_keeps_code s s' r i :
  wf s -> cpu_step scanf_d32 s = Some (s', r) -> i < stack_top s ->
  mem_read (memory s') i = mem_read (memory s) i.
Proof.
  intros Hwf Hstep Hi. pose proof Hwf as Hwf'. wf_open Hwf'.
  destruct (step_stack_effect s s' r sb Hwf Hsb Hstep)
    as [[-> _] | [(j & v & Hw & Hj & _) | [(v & Hw & Hlt & _) | (Hw & Hpos & _)]]].
  - done.
  - eapply mem_read_write_ne; [|done]. lia.
  - eapply mem_read_write_ne; [|done]. lia.
  - eapply mem_read_write_ne; [|done]. lia.
Qed.

(** A program with no [div] cell never divides. *)
Lemma code_without_div init :
  wf init ->
  (forall i, 0 <= i < stack_top init -> mem_read (memory init) i ≠ Some 5) ->
  forall t, reachable scanf_d32 init t -> ~ div_overflows t.
Proof.
  intros Hinit Hcode t Hr.
  assert (stack_top t = stack_top init /\
          forall i, i < stack_top init ->
                    mem_read (memory t) i = mem_read (memory init) i) as [Htop Hsame].
  { induction Hr as [|t t' r Hr [IHt IHc] Hstep]; [done|].
    destruct (cpu_step_layout _ _ _ _ Hstep) as (_ & Ht & _).
    split; [congruence|]. intros i Hi. rewrite <- IHc by done.
    eapply step_keeps_code; [by eapply reachable_wf|done|lia]. }
  intros ((_ & Hip & Hop) & _). unfold in_code in Hip.
  eapply (Hcode (instruction_index t)); [lia|].
  rewrite <- Hsame by lia. done.
Qed.

(** X3.  No execution modifies its program: every cell below [stack_top]
    holds in every reached state what it held in the initial one. *)
Theorem reachable_keeps_code (init s : cpu) (i : Z) :
  wf init -> reachable scanf_d32 init s -> i < stack_top init ->
  mem_read (memory s) i = mem_read (memory init) i.
Proof.
  intros Hinit Hr Hi. induction Hr as [|s s' r Hr IH Hstep]; [done|].
  rewrite <- IH. eapply step_keeps_code; [by eapply reachable_wf|done|].
  assert (stack_top s = stack_top init) as ->; [|done].
  clear IH Hstep. induction Hr as [|s0 s1 r0 _ IH Hstep0]; [done|].
  destruct (cpu_step_layout _ _ _ _ Hstep0) as (_ & -> & _). exact IH.
Qed.

Lemma step_keeps_free_stack_zero s s' r :
  wf s -> free_stack_zero s -> cpu_step scanf_d32 s = Some (s', r) ->
  free_stack_zero s'.
Proof.
  intros Hwf Hfree Hstep. pose proof Hwf as Hwf'. wf_open Hwf'.
  destruct (cpu_step_layout _ _ _ _ Hstep) as (Hb & Ht & _).
  intros sb' i Hsb' Hi. rewrite Hb, Hsb in Hsb'. injection Hsb' as <-.
  rewrite Ht in Hi.
  destruct (step_stack_effect s s' r sb Hwf Hsb Hstep)
    as [[Hm Hs] | [(j & v & Hw & Hj & Hs) | [(v & Hw & Hlt & Hs) | (Hw & Hpos & Hs)]]];
    rewrite Hs in Hi.
  - rewrite Hm. by apply (Hfree sb).
  - assert (j ≠ i) as Hne by lia.
    rewrite (mem_read_write_ne _ _ _ _ _ Hne Hw). by apply (Hfree sb).
  - assert (sb - stack_size s ≠ i) as Hne by lia.
    rewrite (mem_read_write_ne _ _ _ _ _ Hne Hw). apply (Hfree sb); [done|lia].
  - destruct (decide (i = sb - stack_size s + 1)) as [->|Hne].
    + by eapply mem_read_write_eq.
    + assert (sb - stack_size s + 1 ≠ i) as Hne' by lia.
      rewrite (mem_read_write_ne _ _ _ _ _ Hne' Hw). apply (Hfree sb); [done|lia].
Qed.

(** X4.  If the cells of the stack region that are not live all hold 0 (as
    they do after loading), they do so in every reached state: [pop] zeroes
    what it frees and nothing writes below the live stack. *)
Theorem reachable_keeps_free_stack_zero (init s : cpu) :
  wf init -> free_stack_zero init -> reachable scanf_d32 init s ->
  free_stack_zero s.
Proof.
  intros Hinit Hfree Hr. induction Hr as [|s s' r Hr IH Hstep]; [done|].
  eapply step_keeps_free_stack_zero; [by eapply reachable_wf|done..].
Qed.

End Invariants.

(** ** The stack is last-in first-out *)

Lemma live_stack_lookup (s : cpu) (sb : Z) (j : nat) :
  stack_bottom s = Some sb -> 0 <= stack_size s -> 0 <= sb - stack_size s + 1 ->
  live_stack s !! j =
    if bool_decide (Z.of_nat j < stack_size s)
    then mem_read (memory s) (sb - stack_size s + 1 + Z.of_nat j)
    else None.
Proof.
  intros Hsb Hss Hlow. unfold live_stack, mem_read. rewrite Hsb.
  case_bool_decide as Hj.
  - rewrite lookup_take_lt by lia. rewrite lookup_drop.
    rewrite bool_decide_eq_true_2 by lia. f_equal. lia.
  - apply lookup_take_ge. lia.
Qed.

Lemma live_stack_length (s : cpu) :
  wf s -> Z.of_nat (length (live_stack s)) = stack_size s.
Proof.
  intros Hwf. wf_open Hwf. unfold live_stack. rewrite Hsb.
  rewrite length_take, length_drop. lia.
Qed.

Section Lifo.

Variable scanf_d32 : list byte -> scan_result * list byte.

(** X5.  A [push] with room puts the value of its register on top of the
    live stack and leaves the cells under it, and the registers, as they
    were. *)
Theorem push_prepends (s : cpu) (r v : Z) :
  wf s -> status s = CPU_OK -> in_code s ->
  mem_read (memory s) (instruction_index s) = Some 17 ->
  mem_read (memory s) (instruction_index s + 1) = Some r ->
  0 <= r <= 3 ->
  reg_read s r = Some v ->
  stack_size s < capacity s ->
  exists s1,
    cpu_step scanf_d32 s = Some (s1, 1) /\
    live_stack s1 = v :: live_stack s /\
    registers s1 = registers s.
Proof.
  intros Hwf Hok Hip Hop Hr Hreg Hv Hroom.
  destruct (push_step_ok scanf_d32 s r v)
    as (s1 & sb1 & Hstep & Hok1 & Hsb1 & Hss1 & Hcell & Hothers & Hregs & _);
    try done.
  exists s1. split_and!; try done.
  pose proof Hwf as Hwf'. wf_open Hwf'.
  destruct (cpu_step_layout _ _ _ _ Hstep) as (Hb & _).
  rewrite Hb, Hsb in Hsb1. injection Hsb1 as <-.
  unfold capacity in Hroom. rewrite Hsb in Hroom.
  apply list_eq. intros j.
  rewrite (live_stack_lookup s1 sb j) by (rewrite ?Hb, ?Hss1; done || lia).
  rewrite Hss1. destruct j as [|j].
  - rewrite bool_decide_eq_true_2 by lia. simpl.
    rewrite <- Hcell. f_equal. lia.
  - simpl. rewrite (live_stack_lookup s sb j) by (done || lia).
    destruct (decide (Z.of_nat j < stack_size s)) as [Hj|Hj].
    + rewrite !bool_decide_eq_true_2 by lia.
      rewrite Hothers by lia. f_equal. lia.
    + by rewrite !bool_decide_eq_false_2 by lia.
Qed.

(** X6.  A [pop] on a stack that is not empty takes the top of the live
    stack into its register, leaves the rest of the stack as it was, and
    zeroes the cell it has freed. *)
Theorem pop_takes_top (s : cpu) (r : Z) :
  wf s -> status s = CPU_OK -> in_code s ->
  mem_read (memory s) (instruction_index s) = Some 18 ->
  mem_read (memory s) (instruction_index s + 1) = Some r ->
  0 <= r <= 3 ->
  0 < stack_size s ->
  exists s2 v sb,
    cpu_step scanf_d32 s = Some (s2, 1) /\
    live_stack s = v :: live_stack s2 /\
    reg_read s2 r = Some v /\
    stack_bottom s = Some sb /\
    mem_read (memory s2) (sb - stack_size s + 1) = Some 0.
Proof.
  intros Hwf Hok Hip Hop Hr Hreg Hpos.
  pose proof Hwf as Hwf'. wf_open Hwf'.
  destruct (mem_read_is_Some (memory s) (sb - (stack_size s - 1))) as [v Hv]; [lia|].
  destruct (pop_step_ok scanf_d32 s r v sb)
    as (s2 & Hstep & Hok2 & Hval & Hss2 & Hzero & _); try done.
  exists s2, v, sb. split_and!; try done.
  2:{ rewrite <- Hzero. f_equal. lia. }
  destruct (cpu_step_layout _ _ _ _ Hstep) as (Hb & _).
  assert (forall i, i ≠ sb - stack_size s + 1 ->
            mem_read (memory s2) i = mem_read (memory s) i) as Hothers.
  { intros i Hi.
    destruct (step_stack_effect scanf_d32 s s2 1 sb Hwf Hsb Hstep)
      as [[_ Hs] | [(j & w & _ & _ & Hs) | [(w & _ & _ & Hs) | (Hw & _)]]];
      try lia.
    eapply mem_read_write_ne; [|done]. lia. }
  apply list_eq. intros j.
  rewrite (live_stack_lookup s sb j) by (done || lia).
  destruct j as [|j].
  - rewrite bool_decide_eq_true_2 by lia. simpl. rewrite <- Hv. f_equal. lia.
  - simpl. rewrite (live_stack_lookup s2 sb j) by (rewrite ?Hb, ?Hss2; done || lia).
    rewrite Hss2.
    destruct (decide (Z.of_nat (S j) < stack_size s)) as [Hj|Hj].
    + rewrite !bool_decide_eq_true_2 by lia.
      rewrite Hothers by lia. f_equal. lia.
    + by rewrite !bool_decide_eq_false_2 by lia.
Qed.

End Lifo.

(** ** What each instruction does *)

(** Entering a handler whose first operand is a valid register. *)
Lemma enter_reg_handler (s : cpu) (r : Z) :
  wf s -> in_code s -> operand s 1 r -> 0 <= r <= 3 ->
  next_cell s = Some (r, advance s) /\
  reg_is_valid (advance s) r = (true, advance s) /\
  instruction_index (advance s) = instruction_index s + 1 /\
  wrap32 (instruction_index s + 1 + 1) = instruction_index s + 2.
Proof.
  intros Hwf Hip Hr Hreg. unfold operand in Hr.
  pose proof (wf_next_index s Hwf Hip) as Hn.
  pose proof (wf_index_after_operand s r Hwf Hip Hr) as Hn2.
  split_and!.
  - apply next_cell_eval. by rewrite Hn.
  - by apply reg_is_valid_eval.
  - done.
  - by rewrite Hn in Hn2.
Qed.

Lemma wrap32_id' z : INT32_MIN <= z <= INT32_MAX -> wrap32 z = z.
Proof. apply wrap32_id. Qed.

(** Dispatch to the handler of [op], then into a register handler. *)
Ltac into_handler Hf Hwf Hr Hreg :=
  let Hok := fresh "Hok" in
  let Hip := fresh "Hip" in
  let Hop := fresh "Hop" in
  let Hn := fresh "Hnext" in
  let Hv := fresh "Hvalid" in
  let Hi1 := fresh "Hidx1" in
  let Hi2 := fresh "Hidx2" in
  destruct Hf as (Hok & Hip & Hop);
  destruct (enter_reg_handler _ _ Hwf Hip Hr Hreg) as (Hn & Hv & Hi1 & Hi2);
  erewrite cpu_step_dispatch by (first [done | lia | reflexivity]);
  match goal with
  | |- context [mbind _ (in_ _ _)] => unfold in_
  | |- context [mbind _ (?h _)] => unfold h
  end;
  rewrite Hn; cbn [mbind option_bind]; rewrite Hv; cbn [negb].

(** Registers of a state that differs from [s] in other fields. *)
Ltac same_regs :=
  unfold reg_read, reg_write in *;
  cbn [registers advance set_instruction_index set_registers set_status
       set_stack_size set_memory set_stdin set_stdout] in *.

(** The handler has returned with status [CPU_OK]: the step returns 1. *)
Ltac still_ok :=
  cbn [mbind option_bind];
  rewrite bool_decide_eq_false_2 by (cbn; congruence);
  reflexivity.

(** The second operand cell. *)
Lemma enter_second_operand (s : cpu) (r x : Z) :
  wf s -> in_code s -> operand s 1 r -> operand s 2 x ->
  next_cell (advance s) = Some (x, advance (advance s)) /\
  instruction_index (advance (advance s)) = instruction_index s + 2 /\
  wrap32 (instruction_index s + 2 + 1) = instruction_index s + 3.
Proof.
  intros Hwf Hip Hr Hx. unfold operand in *.
  pose proof (wf_next_index s Hwf Hip) as Hn.
  pose proof (wf_index_after_operand s r Hwf Hip Hr) as Hn2.
  pose proof (mem_read_Some _ _ _ Hx) as Hlen.
  split_and!.
  - apply next_cell_eval. cbn. by rewrite Hn2.
  - cbn. done.
  - wf_open Hwf. unfold in_code in Hip.
    rewrite wrap32_id'; [lia|]. unfold INT32_MIN, INT32_MAX in *. lia.
Qed.

Section Semantics.

Variable scanf_d32 : list byte -> scan_result * list byte.

(** X7.  [add], [sub] and [mul] with a valid register operand replace A by
    the sum, difference or product of A and the operand register, cut to
    32 bits (exact when it fits); the other registers, the memory and the
    stack are unchanged and the index moves past the operand. *)
Theorem arith_step (s : cpu) (op r a v : Z) :
  wf s -> fetches s op -> op = 2 \/ op = 3 \/ op = 4 ->
  operand s 1 r -> 0 <= r <= 3 ->
  reg_read s REGISTER_A = Some a -> reg_read s r = Some v ->
  exists s',
    cpu_step scanf_d32 s = Some (s', 1) /\
    status s' = CPU_OK /\
    reg_read s' REGISTER_A = Some (wrap32 (arith_result op a v)) /\
    (is_int32 (arith_result op a v) ->
     reg_read s' REGISTER_A = Some (arith_result op a v)) /\
    (forall r', r' ≠ REGISTER_A -> reg_read s' r' = reg_read s r') /\
    memory s' = memory s /\ stack_size s' = stack_size s /\
    instruction_index s' = instruction_index s + 2.
Proof.
  intros Hwf Hf Hcases Hr Hreg Ha Hv.
  destruct (rf_set_is_Some (registers s) REGISTER_A (wrap32 (arith_result op a v)))
    as [rf Hrf]; [done|].
  assert (cpu_step scanf_d32 s = Some (advance (set_registers (advance s) rf), 1))
    as ->.
  { destruct Hcases as [-> | [-> | ->]]; into_handler Hf Hwf Hr Hreg;
      same_regs; rewrite Ha, Hv; cbn [mbind option_bind].
    - change (arith_result 2 a v) with (a + v) in Hrf. rewrite Hrf. still_ok.
    - change (arith_result 3 a v) with (a - v) in Hrf. rewrite Hrf. still_ok.
    - change (arith_result 4 a v) with (a * v) in Hrf. rewrite Hrf. still_ok. }
  destruct Hf as (Hok & Hip & Hop).
  destruct (enter_reg_handler _ _ Hwf Hip Hr Hreg) as (_ & _ & Hi1 & Hi2).
  eexists. split; [reflexivity|]. same_regs. cbn.
  split_and!; try done.
  - by eapply rf_get_set_eq.
  - intros Hfit. rewrite <- (wrap32_id _ Hfit). by eapply rf_get_set_eq.
  - intros r' Hr'. by eapply rf_get_set_ne.
  - by rewrite wf_next_index.
Qed.


(** X9.  [movr] with a valid register operand stores its literal operand in
    that register; the other registers, the memory and the stack are
    unchanged and the index moves past both operands. *)
Theorem movr_step (s : cpu) (r literal : Z) :
  wf s -> fetches s 9 ->
  operand s 1 r -> 0 <= r <= 3 -> operand s 2 literal ->
  exists s',
    cpu_step scanf_d32 s = Some (s', 1) /\
    status s' = CPU_OK /\
    reg_read s' r = Some literal /\
    (forall r', r' ≠ r -> reg_read s' r' = reg_read s r') /\
    memory s' = memory s /\ stack_size s' = stack_size s /\
    instruction_index s' = instruction_index s + 3.
Proof.
  intros Hwf Hf Hr Hreg Hlit.
  destruct (rf_set_is_Some (registers s) r literal) as [rf Hrf]; [done|].
  pose proof Hf as (Hok' & Hip' & _).
  destruct (enter_second_operand s r literal Hwf Hip' Hr Hlit) as (Hn2 & Hi & Hw).
  assert (cpu_step scanf_d32 s
          = Some (advance (set_registers (advance (advance s)) rf), 1)) as ->.
  { into_handler Hf Hwf Hr Hreg. rewrite Hn2. cbn [mbind option_bind].
    same_regs. rewrite Hrf. still_ok. }
  eexists. split; [reflexivity|]. same_regs. cbn in Hi. cbn.
  split_and!; try done.
  - by eapply rf_get_set_eq.
  - intros r' Hr'. eapply rf_get_set_ne; [|done]. congruence.
  - by rewrite Hi.
Qed.


(** X11.  [swap] with two valid register operands exchanges the two
    registers; the other registers, the memory and the stack are unchanged
    and the index moves past both operands. *)
Theorem swap_step (s : cpu) (r1 r2 v1 v2 : Z) :
  wf s -> fetches s 16 ->
  operand s 1 r1 -> 0 <= r1 <= 3 -> operand s 2 r2 -> 0 <= r2 <= 3 ->
  reg_read s r1 = Some v1 -> reg_read s r2 = Some v2 ->
  exists s',
    cpu_step scanf_d32 s = Some (s', 1) /\
    status s' = CPU_OK /\
    reg_read s' r1 = Some v2 /\ reg_read s' r2 = Some v1 /\
    (forall r', r' ≠ r1 -> r' ≠ r2 -> reg_read s' r' = reg_read s r') /\
    memory s' = memory s /\ stack_size s' = stack_size s /\
    instruction_index s' = instruction_index s + 3.
Proof.
  intros Hwf Hf Hr1 Hreg1 Hr2 Hreg2 Hv1 Hv2.
  destruct (rf_set_is_Some (registers s) r2 v1) as [rfa Hrfa]; [done|].
  destruct (rf_set_is_Some rfa r1 v2) as [rfb Hrfb]; [done|].
  pose proof Hf as (Hok & Hip & Hop).
  destruct (enter_reg_handler _ _ Hwf Hip Hr1 Hreg1) as (Hn1 & _ & _ & _).
  destruct (enter_second_operand s r1 r2 Hwf Hip Hr1 Hr2) as (Hn2 & Hi & Hw).
  assert (cpu_step scanf_d32 s
          = Some (advance (set_registers (advance (advance s)) rfb), 1)) as ->.
  { erewrite cpu_step_dispatch by (first [done | lia | reflexivity]).
    unfold swap. rewrite Hn1. cbn [mbind option_bind]. rewrite Hn2.
    cbn [mbind option_bind]. rewrite !reg_is_valid_eval by done. cbn [negb].
    same_regs. rewrite Hv2, Hv1. cbn [mbind option_bind].
    rewrite Hrfa. cbn [mbind option_bind]. same_regs. rewrite Hrfb. still_ok. }
  eexists. split; [reflexivity|]. same_regs. cbn in Hi. cbn.
  split_and!; try done.
  - by eapply rf_get_set_eq.
  - destruct (decide (r1 = r2)) as [->|Hne].
    + rewrite (rf_get_set_eq _ _ _ _ Hrfb). congruence.
    + rewrite (rf_get_set_ne _ _ _ _ _ Hne Hrfb). by eapply rf_get_set_eq.
  - intros r' H1 H2.
    rewrite (rf_get_set_ne rfa r1 r' v2 rfb) by congruence.
    by rewrite (rf_get_set_ne (registers s) r2 r' v1 rfa) by congruence.
  - by rewrite Hi.
Qed.

End Semantics.

(** ** Addressing the stack: [load] and [store] *)

Section Addressing.

Variable scanf_d32 : list byte -> scan_result * list byte.

(** The address computation of [load] and [store]: [k] is the position in
    the live stack, 0 being its top. *)
Lemma init_reg_target_address_eval (s : cpu) (r off d sb : Z) :
  wf s -> in_code s -> operand s 1 r -> 0 <= r <= 3 -> operand s 2 off ->
  reg_read s REGISTER_D = Some d -> stack_bottom s = Some sb ->
  let k := wrap32 (d + off) in
  let target := sb - stack_size s + k + 1 in
  init_reg_target_address s =
    if bool_decide (0 <= k < stack_size s)
    then Some (true, r, target, advance (advance s))
    else Some (false, r, target,
               set_status (advance (advance s)) CPU_INVALID_STACK_OPERATION).
Proof.
  intros Hwf Hip Hr Hreg Hoff Hd Hsb k target.
  destruct (enter_reg_handler s r Hwf Hip Hr Hreg) as (Hn1 & Hv & _ & _).
  destruct (enter_second_operand s r off Hwf Hip Hr Hoff) as (Hn2 & _ & _).
  unfold init_reg_target_address. rewrite Hn1. cbn [mbind option_bind].
  rewrite Hv. cbn [negb]. rewrite Hn2. cbn [mbind option_bind].
  change (reg_read (advance (advance s)) REGISTER_D) with (reg_read s REGISTER_D).
  rewrite Hd. cbn [mbind option_bind].
  change (stack_bottom (advance (advance s))) with (stack_bottom s).
  rewrite Hsb. cbn [mbind option_bind]. unfold in_stack.
  change (stack_bottom (advance (advance s))) with (stack_bottom s).
  change (stack_size (advance (advance s))) with (stack_size s).
  rewrite Hsb. cbn [mbind option_bind]. fold k. fold target.
  destruct (decide (0 <= k < stack_size s)) as [Hin|Hout].
  - rewrite !bool_decide_eq_true_2 by (subst target; lia). reflexivity.
  - rewrite (bool_decide_eq_false_2 (0 <= k < stack_size s)) by done.
    destruct (decide (target >= sb - stack_size s + 1)) as [H1|H1].
    + rewrite (bool_decide_eq_true_2 _ H1).
      rewrite bool_decide_eq_false_2 by (subst target; lia). reflexivity.
    + rewrite (bool_decide_eq_false_2 _ H1). reflexivity.
Qed.

Lemma load_ok (s : cpu) (r off d sb v : Z) (rf : regfile) :
  wf s -> fetches s 10 -> operand s 1 r -> 0 <= r <= 3 -> operand s 2 off ->
  reg_read s REGISTER_D = Some d -> stack_bottom s = Some sb ->
  0 <= wrap32 (d + off) < stack_size s ->
  mem_read (memory s) (sb - stack_size s + wrap32 (d + off) + 1) = Some v ->
  rf_set (registers s) r v = Some rf ->
  cpu_step scanf_d32 s
  = Some (advance (set_registers (advance (advance s)) rf), 1).
Proof.
  intros Hwf (Hok & Hip & Hop) Hr Hreg Hoff Hd Hsb Hk Hv Hrf.
  erewrite cpu_step_dispatch by (first [done | lia | reflexivity]).
  unfold load. rewrite (init_reg_target_address_eval s r off d sb) by done.
  rewrite bool_decide_eq_true_2 by done. cbn [mbind option_bind negb].
  change (memory (advance (advance s))) with (memory s). rewrite Hv.
  cbn [mbind option_bind]. unfold reg_write.
  change (registers (advance (advance s))) with (registers s). rewrite Hrf.
  cbn [mbind option_bind].
  rewrite bool_decide_eq_false_2 by (cbn; congruence). reflexivity.
Qed.

Lemma store_ok (s : cpu) (r off d sb v : Z) (m : list Z) :
  wf s -> fetches s 11 -> operand s 1 r -> 0 <= r <= 3 -> operand s 2 off ->
  reg_read s REGISTER_D = Some d -> stack_bottom s = Some sb ->
  0 <= wrap32 (d + off) < stack_size s ->
  reg_read s r = Some v ->
  mem_write (memory s) (sb - stack_size s + wrap32 (d + off) + 1) v = Some m ->
  cpu_step scanf_d32 s
  = Some (advance (set_memory (advance (advance s)) m), 1).
Proof.
  intros Hwf (Hok & Hip & Hop) Hr Hreg Hoff Hd Hsb Hk Hv Hm.
  erewrite cpu_step_dispatch by (first [done | lia | reflexivity]).
  unfold store. rewrite (init_reg_target_address_eval s r off d sb) by done.
  rewrite bool_decide_eq_true_2 by done. cbn [mbind option_bind negb].
  change (reg_read (advance (advance s)) r) with (reg_read s r). rewrite Hv.
  cbn [mbind option_bind]. unfold store_cell.
  change (memory (advance (advance s))) with (memory s). rewrite Hm.
  cbn [mbind option_bind].
  rewrite bool_decide_eq_false_2 by (cbn; congruence). reflexivity.
Qed.

Lemma load_store_outside (s : cpu) (op r off d : Z) :
  wf s -> fetches s op -> op = 10 \/ op = 11 ->
  operand s 1 r -> 0 <= r <= 3 -> operand s 2 off ->
  reg_read s REGISTER_D = Some d ->
  ~ (0 <= wrap32 (d + off) < stack_size s) ->
  cpu_step scanf_d32 s
  = Some (set_status (advance (advance s)) CPU_INVALID_STACK_OPERATION, 0).
Proof.
  intros Hwf (Hok & Hip & Hop) Hcases Hr Hreg Hoff Hd Hk.
  pose proof Hwf as Hwf'. wf_open Hwf'.
  destruct Hcases as [-> | ->];
    erewrite cpu_step_dispatch by (first [done | lia | reflexivity]).
  - unfold load. rewrite (init_reg_target_address_eval s r off d sb) by done.
    rewrite bool_decide_eq_false_2 by done. reflexivity.
  - unfold store. rewrite (init_reg_target_address_eval s r off d sb) by done.
    rewrite bool_decide_eq_false_2 by done. reflexivity.
Qed.

(** The cell of a position of the live stack. *)
Lemma live_cell (s : cpu) (sb k : Z) :
  wf s -> stack_bottom s = Some sb -> 0 <= k < stack_size s ->
  0 <= sb - stack_size s + k + 1 < Z.of_nat (length (memory s)) /\
  live_stack s !! Z.to_nat k = mem_read (memory s) (sb - stack_size s + k + 1).
Proof.
  intros Hwf Hsb Hk. wf_open Hwf. simplify_eq. split; [lia|].
  rewrite (live_stack_lookup s sb0) by (done || lia).
  rewrite bool_decide_eq_true_2 by lia. f_equal. lia.
Qed.


Lemma index_after_reg_write (s : cpu) (rf : regfile) :
  instruction_index (advance (set_registers s rf))
  = wrap32 (instruction_index s + 1).
Proof. reflexivity. Qed.

(** X13.  [store r, off] writes the value of [r] at position [D + off] of
    the live stack (0 is the top) and changes no other cell of the buffer,
    no register, not the stack size, and neither input nor output; when that
    position is not in the live stack, on an empty stack always, it sets
    [CPU_INVALID_STACK_OPERATION] and returns 0. *)
Theorem store_step (s : cpu) (r off d v : Z) :
  wf s -> fetches s 11 -> operand s 1 r -> 0 <= r <= 3 -> operand s 2 off ->
  reg_read s REGISTER_D = Some d -> reg_read s r = Some v ->
  let k := wrap32 (d + off) in
  (0 <= k < stack_size s ->
   exists s' sb,
     cpu_step scanf_d32 s = Some (s', 1) /\
     status s' = CPU_OK /\
     live_stack s' = <[Z.to_nat k := v]> (live_stack s) /\
     (forall i, i < stack_top s -> mem_read (memory s') i = mem_read (memory s) i) /\
     registers s' = registers s /\ stack_size s' = stack_size s /\
     instruction_index s' = instruction_index s + 3 /\
     stack_bottom s = Some sb /\
     memory s' = <[Z.to_nat (sb - stack_size s + k + 1) := v]> (memory s) /\
     (forall i, i ≠ sb - stack_size s + k + 1 ->
                mem_read (memory s') i = mem_read (memory s) i) /\
     stdin s' = stdin s /\ stdout s' = stdout s) /\
  (~ (0 <= k < stack_size s) ->
   exists s',
     cpu_step scanf_d32 s = Some (s', 0) /\
     status s' = CPU_INVALID_STACK_OPERATION).
Proof.
  intros Hwf Hf Hr Hreg Hoff Hd Hv k. split.
  - intros Hk. pose proof Hwf as Hwf'. wf_open Hwf'.
    destruct (live_cell s sb k Hwf Hsb Hk) as [Hrange Hlive].
    destruct (mem_write_is_Some (memory s) (sb - stack_size s + k + 1) v Hrange)
      as [m Hm].
    pose proof (store_ok s r off d sb v m Hwf Hf Hr Hreg Hoff Hd Hsb Hk Hv Hm)
      as Hstep.
    rewrite Hstep.
    pose proof Hf as (Hok & Hcode & _).
    destruct (enter_second_operand s r off Hwf Hcode Hr Hoff) as (_ & Hi & Hw).
    eexists _, sb. split; [reflexivity|]. cbn in Hi. cbn.
    split_and!; try done.
    + apply list_eq. intros j.
      set (s' := advance (set_memory (advance (advance s)) m)).
      rewrite (live_stack_lookup s' sb j) by (cbn; done || lia).
      change (stack_size s') with (stack_size s).
      change (memory s') with m.
      destruct (decide (j = Z.to_nat k)) as [->|Hne].
      * rewrite list_lookup_insert_eq
          by (pose proof (live_stack_length s Hwf); lia).
        rewrite bool_decide_eq_true_2 by lia.
        replace (sb - stack_size s + 1 + Z.of_nat (Z.to_nat k))
          with (sb - stack_size s + k + 1) by lia.
        by eapply mem_read_write_eq.
      * rewrite list_lookup_insert_ne by done.
        rewrite (live_stack_lookup s sb j) by (done || lia).
        case_bool_decide; [|done].
        eapply mem_read_write_ne; [|done]. lia.
    + intros i Hi'. eapply mem_read_write_ne; [|done]. lia.
    + by rewrite Hi.
    + unfold mem_write in Hm. rewrite bool_decide_eq_true_2 in Hm by done.
      by injection Hm as <-.
    + intros i Hi'. eapply mem_read_write_ne; [|done]. lia.
  - intros Hk. rewrite (load_store_outside s 11 r off d) by (done || by right).
    eexists. by split.
Qed.

(** X14.  [store r, off] on a position of the live stack, followed in the
    code region by [load r2, off] with the same offset and a valid register:
    both steps succeed, the second one starting where the first has left the
    index, and afterwards [r2] holds the value that was stored, the stack
    size being unchanged. *)
Theorem store_then_load (s : cpu) (r off d v r2 : Z) :
  wf s -> fetches s 11 -> operand s 1 r -> 0 <= r <= 3 -> operand s 2 off ->
  reg_read s REGISTER_D = Some d -> reg_read s r = Some v ->
  0 <= wrap32 (d + off) < stack_size s ->
  instruction_index s + 5 < stack_top s ->
  mem_read (memory s) (instruction_index s + 3) = Some 10 ->
  mem_read (memory s) (instruction_index s + 4) = Some r2 -> 0 <= r2 <= 3 ->
  mem_read (memory s) (instruction_index s + 5) = Some off ->
  exists s1 s2,
    cpu_step scanf_d32 s = Some (s1, 1) /\
    instruction_index s1 = instruction_index s + 3 /\
    cpu_step scanf_d32 s1 = Some (s2, 1) /\
    status s2 = CPU_OK /\
    reg_read s2 r2 = Some v /\
    stack_size s2 = stack_size s /\
    instruction_index s2 = instruction_index s + 6.
Proof.
  intros Hwf Hf Hr Hreg Hoff Hd Hv Hk Hend Hop2 Hr2 Hreg2 Hoff2.
  pose proof Hwf as Hwf'. wf_open Hwf'.
  destruct (live_cell s sb _ Hwf Hsb Hk) as [Hrange _].
  destruct (mem_write_is_Some (memory s) _ v Hrange) as [m Hm].
  pose proof (store_ok s r off d sb v m Hwf Hf Hr Hreg Hoff Hd Hsb Hk Hv Hm)
    as Hstep.
  pose proof Hf as (Hok & Hcode & _).
  destruct (enter_second_operand s r off Hwf Hcode Hr Hoff) as (_ & Hi & Hw).
  set (s1 := advance (set_memory (advance (advance s)) m)) in *.
  assert (instruction_index s1 = instruction_index s + 3) as Hi1.
  { cbn. cbn in Hi. by rewrite Hi. }
  assert (forall i, i < stack_top s ->
            mem_read (memory s1) i = mem_read (memory s) i) as Hcells.
  { intros i Hlt. change (memory s1) with m.
    eapply mem_read_write_ne; [|done]. lia. }
  assert (wf s1) as Hwf1 by (by eapply cpu_step_wf).
  assert (fetches s1 10) as Hf1.
  { split_and!; [done|unfold in_code in *; rewrite Hi1; cbn; lia|].
    rewrite Hi1, Hcells by lia. done. }
  assert (operand s1 1 r2) as Hr1.
  { unfold operand. rewrite Hi1, Hcells by lia.
    by replace (instruction_index s + 3 + 1) with (instruction_index s + 4) by lia. }
  assert (operand s1 2 off) as Hoff1.
  { unfold operand. rewrite Hi1, Hcells by lia.
    by replace (instruction_index s + 3 + 2) with (instruction_index s + 5) by lia. }
  destruct (rf_set_is_Some (registers s1) r2 v) as [rf Hrf]; [done|].
  pose proof Hf1 as (_ & Hcode1 & _).
  destruct (enter_second_operand s1 r2 off Hwf1 Hcode1 Hr1 Hoff1) as (_ & Hj & Hw1).
  exists s1, (advance (set_registers (advance (advance s1)) rf)).
  split_and!; [exact Hstep|exact Hi1| |done| |done|].
  - apply (load_ok s1 r2 off d sb v rf); try done.
    by eapply mem_read_write_eq.
  - same_regs. by eapply rf_get_set_eq.
  - rewrite index_after_reg_write, Hj, Hw1, Hi1. lia.
Qed.

End Addressing.

(** ** Input and output *)

Section InputOutput.

Variable scanf_d32 : list byte -> scan_result * list byte.

(** X15.  [get r] with a valid register operand and input left takes the
    next byte off the input and stores its value, between 0 and 255, in [r];
    register C is touched only if it is [r]; memory and stack are
    unchanged. *)
Theorem get_byte_step (s : cpu) (r : Z) (b : byte) (rest : list byte) :
  wf s -> fetches s 13 -> operand s 1 r -> 0 <= r <= 3 ->
  stdin s = b :: rest ->
  exists s',
    cpu_step scanf_d32 s = Some (s', 1) /\
    status s' = CPU_OK /\
    reg_read s' r = Some (Z.of_N (Byte.to_N b)) /\
    0 <= Z.of_N (Byte.to_N b) <= 255 /\
    stdin s' = rest /\
    (forall r', r' ≠ r -> reg_read s' r' = reg_read s r') /\
    memory s' = memory s /\ stack_size s' = stack_size s /\
    stdout s' = stdout s /\
    instruction_index s' = instruction_index s + 2.
Proof.
  intros Hwf Hf Hr Hreg Hin.
  set (c := Z.of_N (Byte.to_N b)).
  assert (0 <= c <= 255) as Hc.
  { pose proof (Byte.to_N_bounded b). subst c. lia. }
  destruct (rf_set_is_Some (registers s) r c) as [rf Hrf]; [done|].
  pose proof Hf as (Hok & Hip & _).
  destruct (enter_reg_handler _ _ Hwf Hip Hr Hreg) as (_ & _ & Hi1 & Hi2).
  assert (cpu_step scanf_d32 s
          = Some (advance (set_registers (set_stdin (advance s) rest) rf), 1)) as ->.
  { into_handler Hf Hwf Hr Hreg. unfold getchar.
    change (stdin (advance s)) with (stdin s). rewrite Hin. fold c.
    rewrite bool_decide_eq_false_2 by (unfold EOF; lia).
    same_regs. rewrite Hrf. still_ok. }
  eexists. split; [reflexivity|]. same_regs. cbn.
  split_and!; try done; try lia.
  - by eapply rf_get_set_eq.
  - intros r' Hr'. eapply rf_get_set_ne; [|done]. congruence.
  - by rewrite wf_next_index.
Qed.

(** X16.  [in r] with a valid register operand: when the conversion
    succeeds the number read, cut to 32 bits, is stored in [r]; when the
    input does not start a number the step sets [CPU_IO_ERROR], returns 0
    and leaves the registers as they were.  In both cases the machine goes on
    with the input [scanf] has left. *)
Theorem in_step (s : cpu) (r : Z) (result : scan_result) (rest : list byte) :
  wf s -> fetches s 12 -> operand s 1 r -> 0 <= r <= 3 ->
  scanf_d32 (stdin s) = (result, rest) ->
  (forall num, result = ScanMatched num ->
   exists s',
     cpu_step scanf_d32 s = Some (s', 1) /\
     status s' = CPU_OK /\
     reg_read s' r = Some (wrap32 num) /\
     (forall r', r' ≠ r -> reg_read s' r' = reg_read s r') /\
     stdin s' = rest /\ memory s' = memory s /\
     instruction_index s' = instruction_index s + 2) /\
  (result = ScanMismatch ->
   exists s',
     cpu_step scanf_d32 s = Some (s', 0) /\
     status s' = CPU_IO_ERROR /\
     registers s' = registers s /\ stdin s' = rest /\ memory s' = memory s).
Proof.
  intros Hwf Hf Hr Hreg Hscan. split.
  - intros num ->.
    destruct (rf_set_is_Some (registers s) r (wrap32 num)) as [rf Hrf]; [done|].
    pose proof Hf as (Hok & Hip & _).
    destruct (enter_reg_handler _ _ Hwf Hip Hr Hreg) as (_ & _ & Hi1 & Hi2).
    assert (cpu_step scanf_d32 s
            = Some (advance (set_registers (set_stdin (advance s) rest) rf), 1))
      as ->.
    { into_handler Hf Hwf Hr Hreg.
      change (stdin (advance s)) with (stdin s). rewrite Hscan.
      same_regs. rewrite Hrf. still_ok. }
    eexists. split; [reflexivity|]. same_regs. cbn.
    split_and!; try done.
    + by eapply rf_get_set_eq.
    + intros r' Hr'. eapply rf_get_set_ne; [|done]. congruence.
    + by rewrite wf_next_index.
  - intros ->.
    assert (cpu_step scanf_d32 s
            = Some (set_status (set_stdin (advance s) rest) CPU_IO_ERROR, 0)) as ->.
    { into_handler Hf Hwf Hr Hreg.
      change (stdin (advance s)) with (stdin s). rewrite Hscan.
      reflexivity. }
    eexists. split; [reflexivity|]. cbn. by split_and!.
Qed.

(** X17.  [out r] with a valid register operand appends the value of [r],
    as a number, to the output and changes nothing else but the index. *)
Theorem out_step (s : cpu) (r v : Z) :
  wf s -> fetches s 14 -> operand s 1 r -> 0 <= r <= 3 ->
  reg_read s r = Some v ->
  exists s',
    cpu_step scanf_d32 s = Some (s', 1) /\
    status s' = CPU_OK /\
    stdout s' = stdout s ++ [OutInt v] /\
    registers s' = registers s /\ memory s' = memory s /\
    stack_size s' = stack_size s /\ stdin s' = stdin s /\
    instruction_index s' = instruction_index s + 2.
Proof.
  intros Hwf Hf Hr Hreg Hv.
  pose proof Hf as (Hok & Hip & _).
  destruct (enter_reg_handler _ _ Hwf Hip Hr Hreg) as (_ & _ & Hi1 & Hi2).
  assert (cpu_step scanf_d32 s
          = Some (advance (set_stdout (advance s) (stdout s ++ [OutInt v])), 1))
    as ->.
  { into_handler Hf Hwf Hr Hreg. same_regs. rewrite Hv. still_ok. }
  eexists. split; [reflexivity|]. cbn. split_and!; try done.
  by rewrite wf_next_index.
Qed.

(** X18.  [put r] with a valid register operand appends the value of [r],
    as one byte, to the output when it lies in 0..255; otherwise it writes
    nothing, sets [CPU_ILLEGAL_OPERAND] and returns 0. *)
Theorem put_step (s : cpu) (r v : Z) :
  wf s -> fetches s 15 -> operand s 1 r -> 0 <= r <= 3 ->
  reg_read s r = Some v ->
  (0 <= v <= 255 ->
   exists s',
     cpu_step scanf_d32 s = Some (s', 1) /\
     status s' = CPU_OK /\
     stdout s' = stdout s ++ [OutChar v] /\
     registers s' = registers s /\ memory s' = memory s /\
     instruction_index s' = instruction_index s + 2) /\
  (~ (0 <= v <= 255) ->
   exists s',
     cpu_step scanf_d32 s = Some (s', 0) /\
     status s' = CPU_ILLEGAL_OPERAND /\
     stdout s' = stdout s /\ registers s' = registers s).
Proof.
  intros Hwf Hf Hr Hreg Hv. pose proof Hf as (Hok & Hip & _).
  destruct (enter_reg_handler _ _ Hwf Hip Hr Hreg) as (_ & _ & Hi1 & Hi2). split.
  - intros Hbyte.
    assert (cpu_step scanf_d32 s
            = Some (advance (set_stdout (advance s) (stdout s ++ [OutChar v])), 1))
      as ->.
    { into_handler Hf Hwf Hr Hreg. same_regs. rewrite Hv.
      cbn [mbind option_bind].
      rewrite !bool_decide_eq_false_2 by lia. cbn [orb]. still_ok. }
    eexists. split; [reflexivity|]. cbn. split_and!; try done.
    by rewrite wf_next_index.
  - intros Hbyte.
    assert (cpu_step scanf_d32 s
            = Some (set_status (advance s) CPU_ILLEGAL_OPERAND, 0)) as ->.
    { into_handler Hf Hwf Hr Hreg. same_regs. rewrite Hv.
      cbn [mbind option_bind].
      destruct (decide (v < 0)) as [Hneg|Hpos].
      - rewrite (bool_decide_eq_true_2 (v < 0)) by done. reflexivity.
      - rewrite (bool_decide_eq_false_2 (v < 0)) by done.
        rewrite (bool_decide_eq_true_2 (v > 255)) by lia. reflexivity. }
    eexists. split; [reflexivity|]. cbn. by split_and!.
Qed.

(** No handler takes back what was written: the output after it is the
    output before it, followed by at most one item. *)
Lemma handlers_output (h : cpu -> option cpu) s s' :
  h ∈ instructions scanf_d32 -> h s = Some s' ->
  stdout s' = stdout s \/ exists e, stdout s' = stdout s ++ [e].
Proof.
  intros Hin H. each_handler Hin.
  all: unfold in_ in H; unfold_handlers H.
  all: inv_handler H; try inv_target.
  all: cbn; eauto.
Qed.

(** X19.  The output only grows: what a reached state has written starts
    with what had been written in the state the execution started from. *)
Theorem reachable_output_grows (init s : cpu) :
  reachable scanf_d32 init s -> stdout init `prefix_of` stdout s.
Proof.
  intros Hr. induction Hr as [|s s' r _ IH Hstep]; [done|].
  etrans; [exact IH|].
  apply cpu_step_inv in Hstep as [? -> ?|? ? -> ?|? ? ? ? ? -> ?|op h ? ? ? ? Hh Hs ?];
    try done.
  destruct (handlers_output h s s') as [-> | [e ->]];
    [by eapply list_elem_of_lookup_2|done|done|by apply prefix_app_r].
Qed.

End InputOutput.

(** ** Bad operands and bad opcodes *)

Lemma reg_is_valid_bad (s : cpu) (reg : Z) :
  ~ (0 <= reg <= 3) ->
  reg_is_valid s reg = (false, set_status s CPU_ILLEGAL_OPERAND).
Proof.
  intros H. unfold reg_is_valid, REGISTER_A, REGISTER_D.
  destruct (decide (reg >= 0)) as [H0|H0].
  - rewrite (bool_decide_eq_true_2 _ H0).
    by rewrite bool_decide_eq_false_2 by lia.
  - by rewrite (bool_decide_eq_false_2 _ H0).
Qed.

Section BadOperands.

Variable scanf_d32 : list byte -> scan_result * list byte.

(** X20.  An instruction whose register operand is not one of the four
    registers sets [CPU_ILLEGAL_OPERAND] and returns 0.  It has changed no
    register, no cell and not the stack, has read no input and written no
    output.  [swap] checks both of its operands this way. *)
Theorem bad_register_step (s : cpu) (op r1 r2 : Z) :
  wf s -> fetches s op -> operand s 1 r1 ->
  (2 <= op <= 18 /\ op ≠ 8 /\ op ≠ 16 /\ ~ (0 <= r1 <= 3)) \/
  (op = 16 /\ operand s 2 r2 /\ (~ (0 <= r1 <= 3) \/ ~ (0 <= r2 <= 3))) ->
  exists s',
    cpu_step scanf_d32 s = Some (s', 0) /\
    status s' = CPU_ILLEGAL_OPERAND /\
    registers s' = registers s /\ memory s' = memory s /\
    stack_size s' = stack_size s /\
    stdin s' = stdin s /\ stdout s' = stdout s.
Proof.
  intros Hwf (Hok & Hip & Hop) Hr1 Hcases.
  assert (next_cell s = Some (r1, advance s)) as Hn1.
  { apply next_cell_eval. rewrite wf_next_index by done. exact Hr1. }
  destruct Hcases as [(Hrange & Hne8 & Hne16 & Hbad) | (-> & Hr2 & Hbad)].
  - assert (cpu_step scanf_d32 s
            = Some (set_status (advance s) CPU_ILLEGAL_OPERAND, 0)) as ->;
      [|eexists; split; [reflexivity|]; cbn; by split_and!].
    assert (op = 2 \/ op = 3 \/ op = 4 \/ op = 5 \/ op = 6 \/ op = 7 \/ op = 9 \/
            op = 10 \/ op = 11 \/ op = 12 \/ op = 13 \/ op = 14 \/ op = 15 \/
            op = 17 \/ op = 18) as Hc by lia.
    repeat (destruct Hc as [-> | Hc]); [..|subst op];
      erewrite cpu_step_dispatch by (first [done | lia | reflexivity]);
      unfold add, sub, mul, div_reg, inc, dec, movr, load, store, in_, get, out,
        put, push, pop, init_reg_target_address;
      rewrite Hn1; cbn [mbind option_bind];
      rewrite (reg_is_valid_bad _ _ Hbad); reflexivity.
  - destruct (enter_second_operand s r1 r2 Hwf Hip Hr1 Hr2) as (Hn2 & _ & _).
    assert (cpu_step scanf_d32 s
            = Some (set_status (advance (advance s)) CPU_ILLEGAL_OPERAND, 0)) as ->;
      [|eexists; split; [reflexivity|]; cbn; by split_and!].
    erewrite cpu_step_dispatch by (first [done | lia | reflexivity]).
    unfold swap. rewrite Hn1. cbn [mbind option_bind]. rewrite Hn2.
    cbn [mbind option_bind].
    destruct (decide (0 <= r1 <= 3)) as [Hok1|Hbad1].
    + rewrite (reg_is_valid_eval _ _ Hok1). cbn [negb].
      rewrite reg_is_valid_bad by tauto. reflexivity.
    + rewrite (reg_is_valid_bad _ _ Hbad1). reflexivity.
Qed.

(** X21.  A cell of the code region that holds no opcode, a negative value
    included, stops the machine with [CPU_ILLEGAL_INSTRUCTION]: the step
    returns 0 and changes nothing but the status, the index staying on that
    cell. *)
Theorem bad_opcode_step (s : cpu) (op : Z) :
  fetches s op -> ~ (0 <= op <= 18) ->
  cpu_step scanf_d32 s = Some (set_status s CPU_ILLEGAL_INSTRUCTION, 0) /\
  forall n, cpu_steps scanf_d32 (S n) s = Some (set_status s CPU_ILLEGAL_INSTRUCTION).
Proof.
  intros (Hok & Hip & Hop) Hbad.
  assert (cpu_step scanf_d32 s = Some (set_status s CPU_ILLEGAL_INSTRUCTION, 0))
    as Hstep by (by eapply cpu_step_illegal_instruction).
  split; [done|]. intros n. cbn [cpu_steps]. rewrite Hstep.
  cbn [mbind option_bind]. by apply cpu_steps_not_ok.
Qed.

End BadOperands.

(** ** [cpu_run] and single steps *)

Section Runs.

Variable scanf_d32 : list byte -> scan_result * list byte.

Lemma performs_cpu_steps s k s' :
  performs scanf_d32 s k s' -> cpu_steps scanf_d32 k s = Some s'.
Proof.
  induction 1 as [s|s s1 r k s' Hok Hstep _ IH]; [done|].
  cbn [cpu_steps]. rewrite Hstep. exact IH.
Qed.

Lemma cpu_run_inv (s s' : cpu) (N ret : Z) :
  cpu_run scanf_d32 s N = Some (s', ret) ->
  exists k : nat,
    cpu_steps scanf_d32 k s = Some s' /\
    (ret = Z.of_nat k \/ ret = - Z.of_nat k) /\
    (k = O \/ Z.of_nat k <= to_long_long N).
Proof.
  unfold cpu_run. intros H. case_bool_decide as Hst.
  - injection H as <- <-. exists O. split_and!; [done|by left|by left].
  - cbn zeta in H.
    destruct (run_loop scanf_d32 _ _ s 0) as [[s1 p]|] eqn:Hrun; [|done].
    cbn [mbind option_bind] in H.
    apply run_loop_inv in Hrun as (k & -> & Hper & Hle & _).
    exists k. rewrite Z.add_0_l in *.
    case_match; injection H as <- <-;
      (split_and!; [by apply performs_cpu_steps|auto|done]).
Qed.

(** X22.  What [cpu_run] returns counts single steps: the state it ends in
    is the state that many calls of [cpu_step] lead to, whatever the sign of
    the count. *)
Theorem cpu_run_is_iterated_step (s s' : cpu) (N ret : Z) :
  cpu_run scanf_d32 s N = Some (s', ret) ->
  cpu_steps scanf_d32 (Z.abs_nat ret) s = Some s'.
Proof.
  intros (k & Hsteps & [-> | ->] & _)%cpu_run_inv.
  - by replace (Z.abs_nat (Z.of_nat k)) with k by lia.
  - by replace (Z.abs_nat (- Z.of_nat k)) with k by lia.
Qed.

Lemma run_loop_stopped (fuel : nat) (steps : Z) :
  forall (s : cpu) (p : Z) s' c (fuel' : nat) (steps' : Z),
    run_loop scanf_d32 fuel steps s p = Some (s', c) ->
    status s' ≠ CPU_OK ->
    (fuel <= fuel')%nat -> steps <= steps' ->
    run_loop scanf_d32 fuel' steps' s p = Some (s', c).
Proof.
  induction fuel as [|fuel IH]; intros s p s' c fuel' steps' H Hst Hf Hs.
  - simpl in H.
    destruct (decide (status s = CPU_OK)) as [Hok|Hok].
    + destruct (decide (p < steps)) as [Hlt|Hlt].
      * by rewrite !bool_decide_eq_true_2 in H by done.
      * rewrite (bool_decide_eq_false_2 (p < steps)) in H by done.
        rewrite andb_false_r in H. congruence.
    + rewrite (bool_decide_eq_false_2 (status s = CPU_OK)) in H by done.
      injection H as <- <-. destruct fuel'; simpl;
        by rewrite (bool_decide_eq_false_2 (status s = CPU_OK)) by done.
  - cbn [run_loop] in H.
    destruct (decide (status s = CPU_OK)) as [Hok|Hok].
    + destruct (decide (p < steps)) as [Hlt|Hlt].
      * rewrite !bool_decide_eq_true_2 in H by done. cbn [andb] in H.
        destruct fuel' as [|fuel']; [lia|]. cbn [run_loop].
        rewrite !bool_decide_eq_true_2 by (done || lia). cbn [andb].
        destruct (cpu_step scanf_d32 s) as [[s1 r]|]; [|done].
        cbn [mbind option_bind] in *. eapply IH; [done..|lia|done].
      * rewrite (bool_decide_eq_false_2 (p < steps)) in H by done.
        rewrite andb_false_r in H. congruence.
    + rewrite (bool_decide_eq_false_2 (status s = CPU_OK)) in H by done.
      injection H as <- <-. destruct fuel'; simpl;
        by rewrite (bool_decide_eq_false_2 (status s = CPU_OK)) by done.
Qed.

Lemma to_long_long_id z : 0 <= z < 2 ^ 63 -> to_long_long z = z.
Proof. intros H. unfold to_long_long. rewrite Z.mod_small; lia. Qed.

(** X23.  Once a run has stopped on a status other than [CPU_OK], a larger
    budget changes nothing: the same final state and the same count come
    back. *)
Theorem cpu_run_budget_irrelevant (s s' : cpu) (N M ret : Z) :
  0 <= N <= M -> M < 2 ^ 63 ->
  cpu_run scanf_d32 s N = Some (s', ret) ->
  status s' ≠ CPU_OK ->
  cpu_run scanf_d32 s M = Some (s', ret).
Proof.
  intros HN HM H Hst. unfold cpu_run in *.
  case_bool_decide as Hs; [done|]. cbn zeta in *.
  rewrite (to_long_long_id N) in H by lia. rewrite (to_long_long_id M) by lia.
  destruct (run_loop scanf_d32 (Z.to_nat N) N s 0) as [[s1 p]|] eqn:Hrun; [|done].
  cbn [mbind option_bind] in H.
  assert (s1 = s') as -> by (case_match; congruence).
  erewrite run_loop_stopped; [| exact Hrun | done | lia | lia].
  exact H.
Qed.

Lemma run_loop_shift (fuel : nat) (steps d : Z) : forall (s : cpu) (p : Z),
  run_loop scanf_d32 fuel (steps + d) s (p + d)
  = '(s', c) ← run_loop scanf_d32 fuel steps s p; Some (s', c + d).
Proof.
  induction fuel as [|fuel IH]; intros s p; cbn [run_loop].
  - destruct (decide (status s = CPU_OK)) as [Hok|Hok];
      [destruct (decide (p < steps)) as [Hlt|Hlt]|].
    + by rewrite !bool_decide_eq_true_2 by (done || lia).
    + rewrite (bool_decide_eq_false_2 (p < steps)) by done.
      rewrite (bool_decide_eq_false_2 (p + d < steps + d)) by lia.
      by rewrite !andb_false_r.
    + by rewrite !(bool_decide_eq_false_2 (status s = CPU_OK)) by done.
  - destruct (decide (status s = CPU_OK)) as [Hok|Hok];
      [destruct (decide (p < steps)) as [Hlt|Hlt]|].
    + rewrite !bool_decide_eq_true_2 by (done || lia). cbn [andb].
      destruct (cpu_step scanf_d32 s) as [[s1 r]|]; [|done].
      cbn [mbind option_bind].
      replace (p + d + 1) with (p + 1 + d) by lia. apply IH.
    + rewrite (bool_decide_eq_false_2 (p < steps)) by done.
      rewrite (bool_decide_eq_false_2 (p + d < steps + d)) by lia.
      by rewrite !andb_false_r.
    + by rewrite !(bool_decide_eq_false_2 (status s = CPU_OK)) by done.
Qed.

Lemma run_loop_resume (fuel : nat) (steps : Z) :
  forall (s : cpu) (p : Z) s1 c (fuel' : nat) (steps' : Z),
    run_loop scanf_d32 fuel steps s p = Some (s1, c) ->
    status s1 = CPU_OK -> c <= steps ->
    steps <= steps' -> (Z.to_nat (steps - p) <= fuel')%nat ->
    run_loop scanf_d32 fuel' steps' s p
    = run_loop scanf_d32 (fuel' - Z.to_nat (c - p)) steps' s1 c.
Proof.
  induction fuel as [|fuel IH]; intros s p s1 c fuel' steps' H Hok1 Hc Hs Hf.
  - simpl in H.
    destruct (decide (status s = CPU_OK)) as [Hok|Hok];
      [destruct (decide (p < steps)) as [Hlt|Hlt]|].
    + by rewrite !bool_decide_eq_true_2 in H by done.
    + rewrite (bool_decide_eq_false_2 (p < steps)) in H by done.
      rewrite andb_false_r in H. injection H as <- <-.
      by rewrite Z.sub_diag, Nat.sub_0_r.
    + rewrite (bool_decide_eq_false_2 (status s = CPU_OK)) in H by done.
      injection H as <- <-. by rewrite Z.sub_diag, Nat.sub_0_r.
  - cbn [run_loop] in H.
    destruct (decide (status s = CPU_OK)) as [Hok|Hok];
      [destruct (decide (p < steps)) as [Hlt|Hlt]|].
    + rewrite !bool_decide_eq_true_2 in H by done. cbn [andb] in H.
      destruct fuel' as [|fuel']; [lia|]. cbn [run_loop].
      rewrite !bool_decide_eq_true_2 by (done || lia). cbn [andb].
      destruct (cpu_step scanf_d32 s) as [[sa r]|]; [|done].
      cbn [mbind option_bind] in *.
      pose proof (run_loop_inv _ _ _ _ _ _ _ H) as (k & -> & _).
      rewrite (IH sa (p + 1) s1 _ fuel' steps' H Hok1) by lia.
      f_equal. lia.
    + rewrite (bool_decide_eq_false_2 (p < steps)) in H by done.
      rewrite andb_false_r in H. injection H as <- <-.
      by rewrite Z.sub_diag, Nat.sub_0_r.
    + rewrite (bool_decide_eq_false_2 (status s = CPU_OK)) in H by done.
      injection H as <- <-. by rewrite Z.sub_diag, Nat.sub_0_r.
Qed.


(** X25.  [main] loses nothing when it stores the result of its run in an
    [int]: with the budget [INT_MAX] the count always fits. *)
Theorem main_run_result_exact (s : cpu) :
  main_run_result scanf_d32 s = cpu_run scanf_d32 s INT_MAX.
Proof.
  unfold main_run_result.
  destruct (cpu_run scanf_d32 s INT_MAX) as [[s' ret]|] eqn:Hrun; [|done].
  cbn [mbind option_bind].
  apply cpu_run_inv in Hrun as (k & _ & Hret & Hk).
  rewrite wrap32_id; [done|].
  rewrite to_long_long_id in Hk by (unfold INT_MAX; lia).
  unfold is_int32, INT32_MIN, INT32_MAX, INT_MAX in *. lia.
Qed.

End Runs.

(** ** The loader's buffer *)

Section LoaderLayout.

Variable alloc_ok : Z -> bool.
Variable cell_of_bytes : byte -> byte -> byte -> byte -> Z.

Lemma read_program_total (program : list byte) :
  (forall k, alloc_ok k = true) ->
  forall buf size capacity, is_Some (read_program alloc_ok program buf size capacity).
Proof.
  intros Halloc. induction program as [|c rest IH]; intros buf size capacity.
  - by eexists.
  - cbn [read_program]. case_bool_decide; [rewrite Halloc|]; apply IH.
Qed.

(** X26.  For a program of [n] whole cells the loader returns a buffer of
    [total] cells, the least positive number of 1024-cell blocks that holds
    the program and the stack: the program's cells come first, every other
    cell is 0, and the stack bottom is the last cell.  It returns [NULL] only
    when an allocation fails. *)
Theorem cpu_create_memory_layout (program : list byte) (stack_capacity : Z)
    (n : nat) :
  0 <= stack_capacity ->
  length program = (4 * n)%nat ->
  Z.of_nat (length program) + 4 * stack_capacity + 2 * BLOCK_SIZE <= INT32_MAX ->
  let total := 1024 * Z.max 1 ((Z.of_nat n + stack_capacity + 1023) `div` 1024) in
  (forall mem sb,
     cpu_create_memory alloc_ok cell_of_bytes program stack_capacity = Some (mem, sb) ->
     mem = cells_of_bytes cell_of_bytes program
           ++ replicate (Z.to_nat (total - Z.of_nat n)) 0 /\
     sb = total - 1 /\ Z.of_nat (length mem) = total) /\
  ((forall k, alloc_ok k = true) ->
   is_Some (cpu_create_memory alloc_ok cell_of_bytes program stack_capacity)).
Proof.
  intros Hcap Hlen Hfit total. split.
  - intros mem sb Hmem.
    apply cpu_create_memory_bytes in Hmem
      as (q & bytes & Hq & [qb Hqb] & Hmin & Hroom & Hmax & -> & ->); [|done..].
    assert (q = Z.of_nat n) as -> by lia.
    assert (bytes `div` 4 = 1024 * qb) as ->
      by (symmetry; apply Z.div_unique_exact; lia).
    pose proof (Z.div_mod (Z.of_nat n + stack_capacity + 1023) 1024 ltac:(lia)).
    pose proof (Z.mod_pos_bound (Z.of_nat n + stack_capacity + 1023) 1024 ltac:(lia)).
    assert (1024 * qb = total) as -> by (unfold total; lia).
    split_and!; [done..|].
    rewrite length_app, length_replicate, (cells_of_bytes_length _ n) by done.
    unfold total. lia.
  - intros Halloc. unfold cpu_create_memory. rewrite Halloc. cbn [negb].
    destruct (read_program_total program Halloc [] 0 BLOCK_SIZE)
      as [[[buf size] capacity0] Hread].
    rewrite Hread. cbn [mbind option_bind].
    apply read_program_spec in Hread as (_ & -> & _);
      [|unfold BLOCK_SIZE in *; try lia..]; [|exists 1; lia].
    rewrite bool_decide_eq_false_2.
    2:{ intros Hrem. apply Hrem. unfold CELL_SIZE. apply Z.rem_divide; [lia|].
        exists (Z.of_nat n). lia. }
    case_bool_decide; [rewrite Halloc|]; by eexists.
Qed.

(** The host reads four bytes as a 32-bit value. *)
Hypothesis cell_int32 : forall b0 b1 b2 b3, is_int32 (cell_of_bytes b0 b1 b2 b3).

(** X27.  The machine [main] builds from a program that fits satisfies the
    representation invariant, with the requested stack capacity; it starts at
    index 0 with status [CPU_OK], zeroed registers, an empty stack whose
    cells are all 0, no output, and the whole program inside the code
    region. *)
Theorem loaded_machine_is_ready (program : list byte) (stack_capacity : Z)
    (input : list byte) (init : cpu) :
  0 <= stack_capacity ->
  Z.of_nat (length program) + 4 * stack_capacity + 2 * BLOCK_SIZE <= INT32_MAX ->
  load_machine alloc_ok cell_of_bytes program stack_capacity input = Some init ->
  wf init /\ capacity init = stack_capacity /\
  status init = CPU_OK /\ instruction_index init = 0 /\
  registers init = mkRegs 0 0 0 0 /\
  stack_size init = 0 /\ live_stack init = [] /\ free_stack_zero init /\
  stdin init = input /\ stdout init = [] /\
  take (length program / 4) (memory init) = cells_of_bytes cell_of_bytes program /\
  Z.of_nat (length program / 4) <= stack_top init.
Proof.
  intros Hcap Hfit Hload.
  destruct (load_machine_wf alloc_ok cell_of_bytes cell_int32 _ _ _ _ Hcap Hfit Hload)
    as (Hwf & Hc & Hst & Hidx & Hsz).
  unfold load_machine in Hload.
  destruct (cpu_create_memory _ _ _ _) as [[mem sb]|] eqn:Hmem; [|done].
  cbn [mbind option_bind] in Hload. injection Hload as <-.
  apply cpu_create_memory_bytes in Hmem
    as (q & bytes & Hq & [qb Hqb] & Hmin & Hroom & Hmax & -> & ->); [|done..].
  assert (length program = (4 * Z.to_nat q)%nat) as Hlen by lia.
  pose proof (cells_of_bytes_length cell_of_bytes _ _ Hlen) as Hcells.
  assert (bytes `div` 4 = 1024 * qb) as Hb
    by (symmetry; apply Z.div_unique_exact; lia).
  rewrite Hb in *.
  assert ((length program / 4)%nat = Z.to_nat q) as ->.
  { rewrite Hlen, Nat.mul_comm. by apply Nat.div_mul. }
  split_and!; try done.
  - intros sb1 i [= <-]. cbn. intros Hi.
    unfold mem_read. rewrite bool_decide_eq_true_2 by lia.
    rewrite lookup_app_r by lia.
    apply lookup_replicate_2. lia.
  - cbn. rewrite take_app_length'; done.
  - cbn. lia.
Qed.

End LoaderLayout.

(** ** The public accessors and [cpu_reset] *)

(** X28.  Reading back a register that [cpu_set_register] has set gives the
    value; the other registers, and every other part of the state, are as
    before, and the representation invariant is kept.  An index outside the
    four registers trips the [assert]: there is no result. *)
Theorem cpu_set_then_get_register (s : cpu) (reg value : Z) :
  (0 <= reg <= 3 ->
   exists s',
     cpu_set_register s reg value = Some s' /\
     cpu_get_register s' reg = Some value /\
     (forall reg', reg' ≠ reg -> cpu_get_register s' reg' = cpu_get_register s reg') /\
     s' = set_registers s (registers s') /\
     (wf s -> is_int32 value -> wf s')) /\
  (~ (0 <= reg <= 3) ->
   cpu_set_register s reg value = None /\ cpu_get_register s reg = None).
Proof.
  unfold cpu_set_register, cpu_get_register, reg_write, reg_read. split.
  - intros Hreg.
    destruct (rf_set_is_Some (registers s) reg value Hreg) as [rf Hrf].
    rewrite Hrf. cbn [mbind option_bind]. eexists. split; [reflexivity|].
    cbn [registers set_registers]. split_and!.
    + by eapply rf_get_set_eq.
    + intros reg' Hne. by eapply rf_get_set_ne.
    + done.
    + intros (sb & Hsb & Hat) Hv. exists sb. split; [done|].
      unfold wf_at in *. cbn. destruct Hat as (? & ? & ? & ? & ? & Hregs & ?).
      split_and!; try done; try lia. by eapply rf_set_int32.
  - intros Hbad.
    assert (reg < 0 \/ 3 < reg) as [Hlt|Hgt] by lia.
    + destruct reg as [|p|p]; try lia. done.
    + destruct reg as [|[p|p|]|p]; try lia; try done;
        destruct p as [p|p|]; try lia; done.
Qed.

Section AfterReset.

Variable scanf_d32 : list byte -> scan_result * list byte.

Lemma handlers_without_stack (h : cpu -> option cpu) s s' :
  h ∈ instructions scanf_d32 -> h s = Some s' ->
  stack_bottom s = None -> stack_size s = 0 -> stack_size s' = 0.
Proof.
  intros Hin H Hsb Hsz. each_handler Hin.
  all: unfold in_ in H; unfold_handlers H.
  all: inv_handler H; try inv_target.
  all: cbn in *; try done; try congruence; try lia.
Qed.

Lemma reachable_without_stack init s :
  stack_bottom init = None -> stack_size init = 0 ->
  reachable scanf_d32 init s ->
  stack_bottom s = None /\ stack_size s = 0 /\
  length (memory s) = length (memory init).
Proof.
  intros Hsb Hsz Hr. induction Hr as [|s s' r _ (IH1 & IH2 & IH3) Hstep]; [done|].
  destruct (cpu_step_layout scanf_d32 _ _ _ Hstep) as (Hb & _ & Hl).
  split_and!; [congruence| |congruence].
  apply cpu_step_inv in Hstep as [| | |op h ???? Hh Hs ?]; subst; try done.
  eapply handlers_without_stack; [by eapply list_elem_of_lookup_2|done..].
Qed.

(** X29.  After [cpu_reset] the machine has no stack for good: in every
    state reached from the reset one [stack_bottom] is [NULL] and
    [stack_size] is 0.  There a [pop] with a valid register fails with
    [CPU_INVALID_STACK_OPERATION], and a [push] computes its target cell
    from the null pointer, which has no defined result. *)
Theorem no_stack_after_reset (s s0 t : cpu) (op r : Z) :
  wf s -> cpu_reset s = Some s0 -> reachable scanf_d32 s0 t ->
  stack_bottom t = None /\ stack_size t = 0 /\
  (fetches t op -> operand t 1 r -> 0 <= r <= 3 ->
   (op = 18 ->
    cpu_step scanf_d32 t
    = Some (set_status (advance t) CPU_INVALID_STACK_OPERATION, 0)) /\
   (op = 17 -> cpu_step scanf_d32 t = None)).
Proof.
  intros Hwf Hreset Hreach.
  destruct (cpu_reset_spec _ _ Hreset) as (_ & _ & _ & Hsz0 & Hsb0 & Hmem0).
  destruct (reachable_without_stack _ _ Hsb0 Hsz0 Hreach) as (Hsb & Hsz & Hlen).
  split_and!; [done..|].
  intros (Hok & Hcode & Hop) Hr Hreg.
  assert (next_cell t = Some (r, advance t)) as Hnext.
  { apply next_cell_eval. unfold operand in Hr.
    pose proof (mem_read_Some _ _ _ Hr) as Hin.
    rewrite wrap32_id'; [done|].
    wf_open Hwf. unfold in_code in Hcode. rewrite Hmem0 in Hlen.
    unfold INT32_MIN, INT32_MAX in *. lia. }
  split; intros ->.
  - erewrite cpu_step_dispatch by (first [done | lia | reflexivity]).
    unfold pop. rewrite Hnext. cbn [mbind option_bind].
    rewrite (reg_is_valid_eval _ _ Hreg). cbn [negb].
    rewrite bool_decide_eq_true_2 by (cbn; lia). reflexivity.
  - erewrite cpu_step_dispatch by (first [done | lia | reflexivity]).
    unfold push. rewrite Hnext. cbn [mbind option_bind].
    rewrite (reg_is_valid_eval _ _ Hreg). cbn [negb].
    change (stack_bottom (advance t)) with (stack_bottom t). by rewrite Hsb.
Qed.

Lemma set_instruction_index_twice s a b :
  set_instruction_index (set_instruction_index s a) b = set_instruction_index s b.
Proof. by destruct s. Qed.

Lemma set_instruction_index_same s :
  set_instruction_index s (instruction_index s) = s.
Proof. by destruct s. Qed.

(** X30.  A row of [n] cells holding opcode 0 inside the code region is
    passed in [n] steps that change nothing but the instruction index, which
    ends just behind the row. *)
Theorem nop_row (n : nat) : forall s : cpu,
  wf s -> status s = CPU_OK -> 0 <= instruction_index s ->
  instruction_index s + Z.of_nat n <= stack_top s ->
  (forall i, 0 <= i < Z.of_nat n -> mem_read (memory s) (instruction_index s + i) = Some 0) ->
  cpu_steps scanf_d32 n s
  = Some (set_instruction_index s (instruction_index s + Z.of_nat n)).
Proof.
  induction n as [|n IH]; intros s Hwf Hok Hip Hend Hcells.
  - cbn [cpu_steps]. by rewrite Z.add_0_r, set_instruction_index_same.
  - assert (in_code s) as Hcode by (unfold in_code; lia).
    assert (cpu_step scanf_d32 s
            = Some (set_instruction_index s (instruction_index s + 1), 1)) as Hstep.
    { assert (mem_read (memory s) (instruction_index s) = Some 0) as Hop.
      { rewrite <- (Z.add_0_r (instruction_index s)). apply Hcells. lia. }
      erewrite cpu_step_dispatch by (first [done | lia | reflexivity]).
      unfold nop, advance. rewrite wf_next_index by done.
      cbn [mbind option_bind]. by rewrite bool_decide_eq_false_2 by (cbn; congruence). }
    cbn [cpu_steps]. rewrite Hstep. cbn [mbind option_bind].
    rewrite IH.
    + rewrite set_instruction_index_twice. cbn. do 2 f_equal. lia.
    + eapply cpu_step_wf; done.
    + done.
    + cbn. lia.
    + cbn. lia.
    + intros i Hi. cbn.
      replace (instruction_index s + 1 + i) with (instruction_index s + (1 + i)) by lia.
      apply Hcells. lia.
Qed.

End AfterReset.

(** ** The sample machines, run *)

Lemma print_42_wf : wf print_42.
Proof. compute_done. Qed.

(** The first scenario of the specification: three steps, [42] printed,
    status [CPU_HALTED]. *)
Example print_42_run :
  exists s',
    cpu_run scanf_eof print_42 100 = Some (s', 3) /\
    status s' = CPU_HALTED /\ stdout s' = [OutInt 42].
Proof. eexists. split_and!; [vm_compute; reflexivity|reflexivity..]. Qed.

(** The second scenario: B holds 7, the stack is empty, status
    [CPU_HALTED]. *)
Example push_pop_7_run :
  exists s',
    cpu_run scanf_eof push_pop_7 100 = Some (s', 3) /\
    status s' = CPU_HALTED /\ reg_read s' REGISTER_B = Some 7 /\
    stack_size s' = 0.
Proof. eexists. split_and!; [vm_compute; reflexivity|reflexivity..]. Qed.

(** C1, as stated, fails: after [movr C, 1; loop 5000], loaded with the
    default stack capacity, status is [CPU_OK] and the instruction index is
    5000, outside the code region [0, 768). *)
Lemma ip_leaves_code_while_ok :
  load_machine alloc_always cell_le jump_out_bytes 256 [] = Some jump_out_init /\
  reachable scanf_eof jump_out_init jump_out_after_loop /\
  status jump_out_after_loop = CPU_OK /\
  instruction_index jump_out_after_loop = 5000 /\
  stack_top jump_out_after_loop = 768 /\
  ~ (0 <= instruction_index jump_out_after_loop < stack_top jump_out_after_loop).
Proof.
  split_and!.
  - vm_compute. reflexivity.
  - apply (reachable_step _ _ jump_out_after_movr jump_out_after_loop 1);
      [apply (reachable_step _ _ jump_out_init jump_out_after_movr 1);
         [apply reachable_init|]|];
      vm_compute; reflexivity.
  - reflexivity.
  - reflexivity.
  - reflexivity.
  - cbn. lia.
Qed.

Lemma fetch_is_within_code_witness :
  (in_code print_42 /\
   is_Some (mem_read (memory print_42) (instruction_index print_42))) \/
  (~ in_code print_42 /\
   cpu_step scanf_eof print_42 = Some (set_status print_42 CPU_INVALID_ADDRESS, 0)).
Proof.
  apply (fetch_is_within_code scanf_eof print_42 print_42).
  - compute_done.
  - apply reachable_init.
  - reflexivity.
Defined.

Lemma print_42_never_divides :
  forall t, reachable scanf_eof print_42 t -> ~ div_overflows t.
Proof.
  apply code_without_div; [compute_done|].
  intros i Hi. cbn in Hi.
  assert (i = 0 \/ i = 1 \/ i = 2 \/ i = 3 \/ i = 4 \/ i = 5 \/ i = 6 \/ i = 7)
    as Hc by lia.
  repeat (destruct Hc as [-> | Hc]); [..|subst i]; discriminate.
Defined.



Lemma step_after_stop_is_noop_witness :
  cpu_step scanf_eof (set_status just_halt CPU_DIV_BY_ZERO)
    = Some (set_status just_halt CPU_DIV_BY_ZERO, 0) /\
  cpu_step scanf_eof just_halt = Some (set_status just_halt CPU_HALTED, 0) /\
  cpu_steps scanf_eof 5 (set_status just_halt CPU_HALTED)
    = Some (set_status just_halt CPU_HALTED).
Proof.
  split.
  - apply (proj1 (step_after_stop_is_noop scanf_eof
                    (set_status just_halt CPU_DIV_BY_ZERO))).
    discriminate.
  - assert (status just_halt = CPU_OK) as Hok by reflexivity.
    assert (in_code just_halt) as Hip by (unfold in_code; simpl; lia).
    assert (mem_read (memory just_halt) (instruction_index just_halt) = Some 1)
      as Hop by reflexivity.
    destruct (proj2 (step_after_stop_is_noop scanf_eof just_halt) Hok Hip Hop)
      as (Hstep & _ & _ & Hsteps).
    split; [exact Hstep|exact (Hsteps 5%nat)].
Defined.

Lemma end_of_input_step_witness :
  exists s',
    cpu_step scanf_eof get_b = Some (s', 1) /\
    status s' = CPU_OK /\
    instruction_index s' = instruction_index get_b + 2 /\
    reg_read s' 1 = Some (-1) /\
    (1 ≠ REGISTER_C -> reg_read s' REGISTER_C = Some 0) /\
    (1 = REGISTER_C -> reg_read s' REGISTER_C = Some (-1)) /\
    (forall r', r' ≠ 1 -> r' ≠ REGISTER_C -> reg_read s' r' = reg_read get_b r') /\
    memory s' = memory get_b /\
    stack_size s' = stack_size get_b.
Proof.
  apply (end_of_input_step scanf_eof get_b 13 1).
  - compute_done.
  - reflexivity.
  - unfold in_code. simpl. lia.
  - reflexivity.
  - reflexivity.
  - lia.
  - right. split; reflexivity.
Defined.

(** C5, as stated, fails when the target register is C: [get C] at the end
    of the input leaves -1 in C, not 0. *)
Lemma get_c_at_end_of_input :
  mem_read (memory get_c) (instruction_index get_c) = Some 13 /\
  mem_read (memory get_c) (instruction_index get_c + 1) = Some REGISTER_C /\
  stdin get_c = [] /\
  exists s',
    cpu_step scanf_eof get_c = Some (s', 1) /\
    status s' = CPU_OK /\
    reg_read s' REGISTER_C = Some (-1) /\
    reg_read s' REGISTER_C ≠ Some 0.
Proof.
  split_and!; [reflexivity..|].
  eexists. split_and!; [vm_compute; reflexivity|reflexivity|reflexivity|].
  discriminate.
Qed.



Lemma stack_limit_step_witness :
  exists s',
    cpu_step scanf_eof pop_empty = Some (s', 0) /\
    status s' = CPU_INVALID_STACK_OPERATION /\
    stack_size s' = stack_size pop_empty /\
    memory s' = memory pop_empty /\
    registers s' = registers pop_empty.
Proof.
  apply (stack_limit_step scanf_eof pop_empty 18 0).
  - compute_done.
  - reflexivity.
  - unfold in_code. simpl. lia.
  - reflexivity.
  - reflexivity.
  - lia.
  - right. split; reflexivity.
Defined.

Lemma push_then_pop_witness :
  exists s1 s2,
    cpu_step scanf_eof push_pop_7 = Some (s1, 1) /\
    stack_size s1 = stack_size push_pop_7 + 1 /\
    instruction_index s1 = instruction_index push_pop_7 + 2 /\
    cpu_step scanf_eof s1 = Some (s2, 1) /\
    status s2 = CPU_OK /\
    reg_read s2 1 = Some 7 /\
    stack_size s2 = stack_size push_pop_7 /\
    instruction_index s2 = instruction_index push_pop_7 + 4.
Proof.
  apply (push_then_pop scanf_eof push_pop_7 0 7 1).
  - compute_done.
  - reflexivity.
  - unfold in_code. simpl. lia.
  - reflexivity.
  - reflexivity.
  - lia.
  - reflexivity.
  - vm_compute. reflexivity.
  - simpl. lia.
  - reflexivity.
  - reflexivity.
  - lia.
Defined.

Lemma misaligned_program_is_rejected_witness :
  cpu_create_memory alloc_always cell_le three_bytes 256 = None /\
  load_machine alloc_always cell_le three_bytes 256 [] = None.
Proof.
  apply (misaligned_program_is_rejected alloc_always cell_le three_bytes 256 []).
  vm_compute. discriminate.
Defined.

(** C10, as stated, fails on the position of the index: [div B] at index 0
    with 0 in B reads its one operand cell, at index 1, and fails; the index
    is then 1, on that operand cell, not past it. *)
Lemma failed_div_rests_on_operand :
  exists s',
    cpu_step scanf_eof div_by_zero = Some (s', 0) /\
    status s' = CPU_DIV_BY_ZERO /\
    instruction_index div_by_zero = 0 /\
    operand_cells_read 5 (status s') = 1 /\
    instruction_index s' = 1 /\
    instruction_index s' ≠
      instruction_index div_by_zero + 1 + operand_cells_read 5 (status s').
Proof.
  eexists. split_and!; [vm_compute; reflexivity|reflexivity..|]. vm_compute. discriminate.
Qed.

Lemma failed_step_frame_witness :
  let s' := set_status (advance div_by_zero) CPU_DIV_BY_ZERO in
  0 = 0 /\
  registers s' = registers div_by_zero /\
  memory s' = memory div_by_zero /\
  stack_size s' = stack_size div_by_zero /\
  stack_bottom s' = stack_bottom div_by_zero /\
  stack_top s' = stack_top div_by_zero /\
  stdout s' = stdout div_by_zero /\
  (wf div_by_zero ->
   instruction_index s' =
     instruction_index div_by_zero + operand_cells_read 5 (status s')).
Proof.
  intros s'.
  apply (failed_step_frame scanf_eof div_by_zero s' 0 5).
  - reflexivity.
  - unfold in_code. simpl. lia.
  - reflexivity.
  - lia.
  - vm_compute. reflexivity.
  - discriminate.
Defined.

(** C4: the stack region is not zero-filled.  After [push A] with A = 7 the
    cell at [stack_bottom] (index 15) holds 7, and it still does after
    [cpu_reset]. *)
Lemma cpu_reset_leaves_stack_cell :
  exists s1 s2,
    cpu_step scanf_eof push_pop_7 = Some (s1, 1) /\
    stack_bottom s1 = Some 15 /\
    stack_size s1 = 1 /\
    cpu_reset s1 = Some s2 /\
    registers s2 = mkRegs 0 0 0 0 /\ status s2 = CPU_OK /\
    instruction_index s2 = 0 /\ stack_size s2 = 0 /\
    mem_read (memory s2) 15 = Some 7.
Proof.
  eexists _, _. split_and!; [vm_compute; reflexivity|reflexivity..].
Qed.

(** ** The theorems at the sample machines *)

(** Hypotheses on a sample machine hold by evaluation. *)
Ltac on_sample :=
  unfold fetches, operand, in_code;
  first [ reflexivity | lia | compute_done | (cbn; lia)
        | split_and!; first [reflexivity | lia | (cbn; lia)] ].

Lemma print_42_first_step : reachable scanf_eof print_42 print_42_after_movr.
Proof.
  apply (reachable_step _ _ print_42 print_42_after_movr 1);
    [apply reachable_init | vm_compute; reflexivity].
Defined.

Lemma reachable_keeps_invariant_witness :
  wf print_42_after_movr /\
  0 <= stack_size print_42_after_movr <= capacity print_42 /\
  stack_bottom print_42_after_movr = stack_bottom print_42 /\
  stack_top print_42_after_movr = stack_top print_42 /\
  length (memory print_42_after_movr) = length (memory print_42).
Proof.
  apply (reachable_keeps_invariant scanf_eof print_42 print_42_after_movr).
  - on_sample.
  - exact print_42_first_step.
Defined.

Lemma reachable_step_is_defined_witness :
  (exists s' r,
     cpu_step scanf_eof print_42_after_movr = Some (s', r) /\
     (status s' = CPU_OK -> r = 1) /\
     (status s' ≠ CPU_OK -> r = 0)) /\
  cpu_step scanf_eof div_overflow_reached = None.
Proof.
  split.
  - apply (reachable_step_is_defined scanf_eof print_42 print_42_after_movr).
    + on_sample.
    + on_sample.
    + exact print_42_first_step.
    + apply print_42_never_divides. exact print_42_first_step.
  - apply (reachable_step_is_defined scanf_eof div_overflow_reached
             div_overflow_reached).
    + on_sample.
    + on_sample.
    + apply reachable_init.
    + split; [on_sample|]. exists 1. by split_and!.
Defined.

Lemma reachable_keeps_code_witness :
  mem_read (memory print_42_after_movr) 2 = mem_read (memory print_42) 2.
Proof.
  apply (reachable_keeps_code scanf_eof print_42 print_42_after_movr 2).
  - on_sample.
  - exact print_42_first_step.
  - on_sample.
Defined.

Lemma print_42_free_stack_zero : free_stack_zero print_42.
Proof.
  intros sb i [= <-] Hi. cbn in Hi.
  assert (i = 8 \/ i = 9 \/ i = 10 \/ i = 11 \/ i = 12 \/ i = 13 \/ i = 14 \/ i = 15)
    as Hc by lia.
  repeat (destruct Hc as [-> | Hc]); [..|subst i]; reflexivity.
Defined.

Lemma reachable_keeps_free_stack_zero_witness :
  free_stack_zero print_42_after_movr.
Proof.
  apply (reachable_keeps_free_stack_zero scanf_eof print_42 print_42_after_movr).
  - on_sample.
  - exact print_42_free_stack_zero.
  - exact print_42_first_step.
Defined.

Lemma push_prepends_witness :
  exists s1,
    cpu_step scanf_eof push_pop_7 = Some (s1, 1) /\
    live_stack s1 = 7 :: live_stack push_pop_7 /\
    registers s1 = registers push_pop_7.
Proof.
  apply (push_prepends scanf_eof push_pop_7 0 7); on_sample.
Defined.

Lemma pop_takes_top_witness :
  exists s2 v sb,
    cpu_step scanf_eof pop_b = Some (s2, 1) /\
    live_stack pop_b = v :: live_stack s2 /\
    reg_read s2 1 = Some v /\
    stack_bottom pop_b = Some sb /\
    mem_read (memory s2) (sb - stack_size pop_b + 1) = Some 0.
Proof.
  apply (pop_takes_top scanf_eof pop_b 1); on_sample.
Defined.

Lemma arith_step_witness :
  exists s',
    cpu_step scanf_eof add_b = Some (s', 1) /\
    reg_read s' REGISTER_A = Some 11.
Proof.
  destruct (arith_step scanf_eof add_b 2 1 5 6)
    as (s' & Hstep & _ & _ & Hexact & _); [on_sample..|].
  exists s'. split; [exact Hstep|]. apply Hexact. on_sample.
Defined.


Lemma movr_step_witness :
  exists s',
    cpu_step scanf_eof print_42 = Some (s', 1) /\
    status s' = CPU_OK /\
    reg_read s' 0 = Some 42 /\
    (forall r', r' ≠ 0 -> reg_read s' r' = reg_read print_42 r') /\
    memory s' = memory print_42 /\ stack_size s' = stack_size print_42 /\
    instruction_index s' = instruction_index print_42 + 3.
Proof.
  apply (movr_step scanf_eof print_42 0 42); on_sample.
Defined.


Lemma swap_step_witness :
  exists s',
    cpu_step scanf_eof swap_a_b = Some (s', 1) /\
    status s' = CPU_OK /\
    reg_read s' 0 = Some 6 /\ reg_read s' 1 = Some 5 /\
    (forall r', r' ≠ 0 -> r' ≠ 1 -> reg_read s' r' = reg_read swap_a_b r') /\
    memory s' = memory swap_a_b /\ stack_size s' = stack_size swap_a_b /\
    instruction_index s' = instruction_index swap_a_b + 3.
Proof.
  apply (swap_step scanf_eof swap_a_b 0 1 5 6); on_sample.
Defined.


Lemma store_step_witness :
  exists s',
    cpu_step scanf_eof store_a = Some (s', 1) /\
    live_stack s' = <[1%nat := 5]> (live_stack store_a) /\
    memory s' = <[15%nat := 5]> (memory store_a).
Proof.
  destruct (store_step scanf_eof store_a 0 1 0 5) as [Hin _]; [on_sample..|].
  destruct Hin as (s' & sb & Hstep & _ & Hlive & _ & _ & _ & _ & Hsb & Hmem & _);
    [on_sample|].
  injection Hsb as <-.
  exists s'. split_and!; [exact Hstep|exact Hlive|exact Hmem].
Defined.

Lemma store_then_load_witness :
  exists s1 s2,
    cpu_step scanf_eof store_a = Some (s1, 1) /\
    instruction_index s1 = instruction_index store_a + 3 /\
    cpu_step scanf_eof s1 = Some (s2, 1) /\
    status s2 = CPU_OK /\
    reg_read s2 1 = Some 5 /\
    stack_size s2 = stack_size store_a /\
    instruction_index s2 = instruction_index store_a + 6.
Proof.
  apply (store_then_load scanf_eof store_a 0 1 0 5 1); on_sample.
Defined.

Lemma get_byte_step_witness :
  exists s',
    cpu_step scanf_eof get_b_fed = Some (s', 1) /\
    reg_read s' 1 = Some 65 /\ stdin s' = [].
Proof.
  destruct (get_byte_step scanf_eof get_b_fed 1 x41%byte [])
    as (s' & Hstep & _ & Hr & _ & Hin & _); [on_sample..|].
  exists s'. split_and!; [exact Hstep|exact Hr|exact Hin].
Defined.

Lemma in_step_witness :
  exists s',
    cpu_step scanf_digit in_b = Some (s', 1) /\
    reg_read s' 1 = Some (wrap32 7) /\ stdin s' = [].
Proof.
  destruct (in_step scanf_digit in_b 1 (ScanMatched 7) []) as [Hnum _];
    [on_sample..|].
  destruct (Hnum 7 eq_refl) as (s' & Hstep & _ & Hr & _ & Hin & _).
  exists s'. split_and!; [exact Hstep|exact Hr|exact Hin].
Defined.

Lemma out_step_witness :
  exists s',
    cpu_step scanf_eof out_a = Some (s', 1) /\
    status s' = CPU_OK /\
    stdout s' = stdout out_a ++ [OutInt 42] /\
    registers s' = registers out_a /\ memory s' = memory out_a /\
    stack_size s' = stack_size out_a /\ stdin s' = stdin out_a /\
    instruction_index s' = instruction_index out_a + 2.
Proof.
  apply (out_step scanf_eof out_a 0 42); on_sample.
Defined.

Lemma put_step_witness :
  exists s',
    cpu_step scanf_eof put_a = Some (s', 1) /\
    stdout s' = stdout put_a ++ [OutChar 65].
Proof.
  destruct (put_step scanf_eof put_a 0 65) as [Hbyte _]; [on_sample..|].
  destruct Hbyte as (s' & Hstep & _ & Hout & _); [on_sample|].
  exists s'. split; [exact Hstep|exact Hout].
Defined.

Lemma reachable_output_grows_witness :
  stdout print_42 `prefix_of` stdout print_42_after_movr.
Proof.
  apply (reachable_output_grows scanf_eof print_42 print_42_after_movr).
  exact print_42_first_step.
Defined.

Lemma bad_register_step_witness :
  exists s',
    cpu_step scanf_eof add_bad = Some (s', 0) /\
    status s' = CPU_ILLEGAL_OPERAND /\
    registers s' = registers add_bad /\ memory s' = memory add_bad /\
    stack_size s' = stack_size add_bad /\
    stdin s' = stdin add_bad /\ stdout s' = stdout add_bad.
Proof.
  apply (bad_register_step scanf_eof add_bad 2 7 0); [on_sample..|].
  left. split_and!; lia.
Defined.

Lemma bad_opcode_step_witness :
  cpu_step scanf_eof bad_opcode
    = Some (set_status bad_opcode CPU_ILLEGAL_INSTRUCTION, 0) /\
  forall n,
    cpu_steps scanf_eof (S n) bad_opcode
    = Some (set_status bad_opcode CPU_ILLEGAL_INSTRUCTION).
Proof.
  apply (bad_opcode_step scanf_eof bad_opcode 19); [on_sample|lia].
Defined.

Lemma cpu_run_is_iterated_step_witness :
  cpu_steps scanf_eof (Z.abs_nat 3) print_42 = Some print_42_done.
Proof.
  apply (cpu_run_is_iterated_step scanf_eof print_42 print_42_done 100 3).
  vm_compute. reflexivity.
Defined.

Lemma cpu_run_budget_irrelevant_witness :
  cpu_run scanf_eof print_42 1000 = Some (print_42_done, 3).
Proof.
  apply (cpu_run_budget_irrelevant scanf_eof print_42 print_42_done 100 1000 3).
  - lia.
  - lia.
  - vm_compute. reflexivity.
  - discriminate.
Defined.


Lemma cpu_create_memory_layout_witness :
  is_Some (cpu_create_memory alloc_always cell_le jump_out_bytes 256).
Proof.
  refine (proj2 (cpu_create_memory_layout alloc_always cell_le jump_out_bytes 256 5
                   _ _ _) _).
  - lia.
  - reflexivity.
  - unfold BLOCK_SIZE, INT32_MAX. cbn. lia.
  - reflexivity.
Defined.

Lemma loaded_machine_is_ready_witness :
  wf jump_out_init /\ capacity jump_out_init = 256 /\
  status jump_out_init = CPU_OK /\ instruction_index jump_out_init = 0 /\
  registers jump_out_init = mkRegs 0 0 0 0 /\
  stack_size jump_out_init = 0 /\ live_stack jump_out_init = [] /\
  free_stack_zero jump_out_init /\
  stdin jump_out_init = [] /\ stdout jump_out_init = [] /\
  take (length jump_out_bytes / 4) (memory jump_out_init)
    = cells_of_bytes cell_le jump_out_bytes /\
  Z.of_nat (length jump_out_bytes / 4) <= stack_top jump_out_init.
Proof.
  apply (loaded_machine_is_ready alloc_always cell_le cell_le_int32
           jump_out_bytes 256 [] jump_out_init).
  - lia.
  - unfold BLOCK_SIZE, INT32_MAX. cbn. lia.
  - vm_compute. reflexivity.
Defined.

Lemma cpu_set_then_get_register_witness :
  exists s',
    cpu_set_register print_42 1 9 = Some s' /\
    cpu_get_register s' 1 = Some 9 /\
    (forall reg', reg' ≠ 1 -> cpu_get_register s' reg' = cpu_get_register print_42 reg') /\
    s' = set_registers print_42 (registers s') /\
    (wf print_42 -> is_int32 9 -> wf s').
Proof.
  apply (proj1 (cpu_set_then_get_register print_42 1 9)). lia.
Defined.

Lemma no_stack_after_reset_witness :
  cpu_step scanf_eof push_pop_7_reset = None.
Proof.
  destruct (no_stack_after_reset scanf_eof push_pop_7 push_pop_7_reset
              push_pop_7_reset 17 0) as (_ & _ & Hstep).
  - on_sample.
  - reflexivity.
  - apply reachable_init.
  - apply Hstep; on_sample.
Defined.

Lemma nop_row_witness :
  cpu_steps scanf_eof 3 nops = Some (set_instruction_index nops 3).
Proof.
  apply (nop_row scanf_eof 3 nops); [on_sample..|].
  intros i Hi. assert (i = 0 \/ i = 1 \/ i = 2) as Hc by lia.
  repeat (destruct Hc as [-> | Hc]); [..|subst i]; reflexivity.
Defined.
